(** * Codebase Genius: repository helpers (utils/repo_utils.py)

    A shallow embedding of [build_file_tree], [simple_parse_python] and
    [find_function_calls], with the parts of the Python runtime they rest
    on: [str] methods, the [re] patterns that occur in the file, [os.walk]
    and [os.path.splitext]; then of [extract_repo_name], of the naming of
    the clone in [clone_repo], and of [read_file], [get_readme_summary]
    and [count_lines] over what the file system answers.

    Text is a [string]: a sequence of 8-bit characters standing for the
    code points 0..255.  The character classes ([str.isspace], the [\s] and
    [\w] of [re] on [str] patterns, [str.lower]) follow CPython on that
    range. *)

From Stdlib Require Import Bool Arith ZArith List Ascii String Sorted Lia.
Import ListNotations.
Open Scope string_scope.
Open Scope list_scope.
Open Scope nat_scope.

Set Implicit Arguments.
Set Warnings "-register-all".

(* ================================================================= *)
(** ** Characters *)

Module Chars.

Definition newline : ascii := "010"%char.
Definition dquote : ascii := "034"%char.
Definition squote : ascii := "039"%char.
Definition dot : ascii := "."%char.
Definition slash : ascii := "/"%char.
Definition lparen : ascii := "("%char.

Definition between (lo hi n : nat) : bool := (lo <=? n) && (n <=? hi).

(** [str.isspace] on one character; also the class [\s] of [re]. *)
Definition is_space (c : ascii) : bool :=
  let n := nat_of_ascii c in
  between 9 13 n || between 28 32 n || (n =? 133) || (n =? 160).

(** The class [\w] of [re] for [str] patterns: alphanumeric or underscore. *)
Definition is_word (c : ascii) : bool :=
  let n := nat_of_ascii c in
  between 48 57 n || between 65 90 n || (n =? 95) || between 97 122 n
  || (n =? 170) || between 178 179 n || (n =? 181) || between 185 186 n
  || between 188 190 n || between 192 214 n || between 216 246 n
  || between 248 255 n.

(** [str.lower] on one character. *)
Definition lower_char (c : ascii) : ascii :=
  let n := nat_of_ascii c in
  if between 65 90 n || between 192 214 n || between 216 222 n
  then ascii_of_nat (n + 32) else c.

End Chars.
Import Chars.

(* ================================================================= *)
(** ** Strings: the [str] methods the module calls *)

Module Str.

(** [c in chars] *)
Fixpoint mem (c : ascii) (chars : string) : bool :=
  match chars with
  | EmptyString => false
  | String a chars' => Ascii.eqb c a || mem c chars'
  end.

(** [s.startswith(p)] *)
Definition startswith (s p : string) : bool := String.prefix p s.

(** [s.endswith(p)] *)
Fixpoint endswith (s p : string) : bool :=
  String.eqb s p
  || match s with
     | EmptyString => false
     | String _ s' => endswith s' p
     end.

(** [s.lower()] *)
Fixpoint lower (s : string) : string :=
  match s with
  | EmptyString => EmptyString
  | String c s' => String (lower_char c) (lower s')
  end.

(** [s.split(sep)] for a one-character separator: never the empty list. *)
Fixpoint split (sep : ascii) (s : string) : list string :=
  match s with
  | EmptyString => [EmptyString]
  | String c s' =>
      if Ascii.eqb c sep then EmptyString :: split sep s'
      else match split sep s' with
           | h :: t => String c h :: t
           | [] => [String c EmptyString]
           end
  end.

(** [sep.join(parts)] *)
Fixpoint join (sep : string) (parts : list string) : string :=
  match parts with
  | [] => EmptyString
  | [p] => p
  | p :: ps => p ++ sep ++ join sep ps
  end.

Fixpoint lstrip_by (p : ascii -> bool) (s : string) : string :=
  match s with
  | EmptyString => EmptyString
  | String c s' => if p c then lstrip_by p s' else s
  end.

Fixpoint rstrip_by (p : ascii -> bool) (s : string) : string :=
  match s with
  | EmptyString => EmptyString
  | String c s' =>
      match rstrip_by p s' with
      | EmptyString => if p c then EmptyString else String c EmptyString
      | r => String c r
      end
  end.

Definition strip_by (p : ascii -> bool) (s : string) : string :=
  rstrip_by p (lstrip_by p s).

(** [s.strip()]: whitespace removed at both ends. *)
Definition strip (s : string) : string := strip_by is_space s.

(** [s.strip(chars)]: [chars] is a set of characters, every leading and
    trailing character that belongs to it is removed. *)
Definition strip_chars (chars s : string) : string :=
  strip_by (fun c => mem c chars) s.

Definition triple_dquote : string :=
  String dquote (String dquote (String dquote EmptyString)).
Definition triple_squote : string :=
  String squote (String squote (String squote EmptyString)).

Fixpoint all_chars (p : ascii -> bool) (s : string) : bool :=
  match s with
  | EmptyString => true
  | String c s' => p c && all_chars p s'
  end.

Definition first_char (s : string) : option ascii :=
  match s with
  | EmptyString => None
  | String c _ => Some c
  end.

Fixpoint last_char (s : string) : option ascii :=
  match s with
  | EmptyString => None
  | String c s' =>
      match last_char s' with
      | Some d => Some d
      | None => Some c
      end
  end.

(** [m] is [s] without its leading and trailing characters of class [p]. *)
Definition stripped_of (p : ascii -> bool) (s m : string) : Prop :=
  exists a b,
    s = (a ++ m ++ b)%string /\
    all_chars p a = true /\ all_chars p b = true /\
    (forall c, first_char m = Some c -> p c = false) /\
    (forall c, last_char m = Some c -> p c = false).

End Str.

(* ================================================================= *)
(** ** Regular expressions: the fragment of [re] the module uses *)

Module Re.

Inductive charset := Space | Word.

Definition in_set (k : charset) (c : ascii) : bool :=
  match k with
  | Space => is_space c
  | Word => is_word c
  end.

(** A compiled pattern is a sequence of instructions. *)
Inductive op :=
| Lit (c : ascii)      (* an ordinary character *)
| Any                  (* .   any character but a newline *)
| Bol                  (* ^   start of the string *)
| WordB                (* \b  word boundary *)
| Plus (k : charset)   (* \s+ \w+  greedy, one or more *)
| Star (k : charset)   (* \s*      greedy, zero or more *)
| GroupOpen            (* (   start of group 1 *)
| GroupClose.          (* )   end of group 1 *)

Definition pattern := list op.

(** A match object: where the match ends and the span of group 1. *)
Record match_obj := MatchObj { m_end : nat; g_start : nat; g_end : nat }.

Definition word_before (prev : option ascii) : bool :=
  match prev with
  | Some c => is_word c
  | None => false
  end.

Definition word_here (s : string) : bool :=
  match s with
  | String c _ => is_word c
  | EmptyString => false
  end.

(** [\b]: exactly one of the two neighbouring characters is a word
    character (the outside of the string counts as a non-word). *)
Definition at_boundary (prev : option ascii) (s : string) : bool :=
  xorb (word_before prev) (word_here s).

(** Greedy repetition of a class with backtracking: the longest run is
    tried first, the continuation [cont] decides. *)
Fixpoint greedy (k : charset)
    (cont : option ascii -> nat -> string -> option match_obj)
    (prev : option ascii) (pos : nat) (s : string) : option match_obj :=
  match s with
  | String a s' =>
      if in_set k a then
        match greedy k cont (Some a) (S pos) s' with
        | Some m => Some m
        | None => cont prev pos s
        end
      else cont prev pos s
  | EmptyString => cont prev pos s
  end.

(** [exec p prev pos s gs ge]: match [p] at position [pos], where [s] is
    the text from [pos] on, [prev] the character before it, and [gs], [ge]
    the group registers. *)
Fixpoint exec (p : pattern) (prev : option ascii) (pos : nat) (s : string)
    (gs ge : nat) {struct p} : option match_obj :=
  match p with
  | [] => Some (MatchObj pos gs ge)
  | Lit c :: p' =>
      match s with
      | String a s' =>
          if Ascii.eqb a c then exec p' (Some a) (S pos) s' gs ge else None
      | EmptyString => None
      end
  | Any :: p' =>
      match s with
      | String a s' =>
          if Ascii.eqb a newline then None
          else exec p' (Some a) (S pos) s' gs ge
      | EmptyString => None
      end
  | Bol :: p' =>
      match pos with
      | 0 => exec p' prev pos s gs ge
      | S _ => None
      end
  | WordB :: p' =>
      if at_boundary prev s then exec p' prev pos s gs ge else None
  | Plus k :: p' =>
      match s with
      | String a s' =>
          if in_set k a
          then greedy k (fun prev pos s => exec p' prev pos s gs ge)
                 (Some a) (S pos) s'
          else None
      | EmptyString => None
      end
  | Star k :: p' =>
      greedy k (fun prev pos s => exec p' prev pos s gs ge) prev pos s
  | GroupOpen :: p' => exec p' prev pos s pos ge
  | GroupClose :: p' => exec p' prev pos s gs pos
  end.

(** [re.match(p, text)]: a match that starts at position 0. *)
Definition re_match (p : pattern) (text : string) : option match_obj :=
  exec p None 0 text 0 0.

(** [p.search(text)]: the first position where a match starts. *)
Fixpoint search_from (p : pattern) (prev : option ascii) (pos : nat)
    (s : string) : option match_obj :=
  match exec p prev pos s 0 0 with
  | Some m => Some m
  | None =>
      match s with
      | String a s' => search_from p (Some a) (S pos) s'
      | EmptyString => None
      end
  end.

Definition re_search (p : pattern) (text : string) : option match_obj :=
  search_from p None 0 text.

(** [m.group(1)] *)
Definition group1 (text : string) (m : match_obj) : string :=
  substring (g_start m) (g_end m - g_start m) text.

(** Characters with a meaning of their own in a pattern. *)
Definition special_chars : string := ".^$*+?{}[]\|()".

Definition is_special (c : ascii) : bool := Str.mem c special_chars.

(** What [re.compile] makes of a text interpolated verbatim into a
    pattern, for the texts built of ordinary characters and [.]; [None]
    stands for a text that uses other pattern syntax, which this fragment
    does not interpret. *)
Fixpoint compile_text (s : string) : option pattern :=
  match s with
  | EmptyString => Some []
  | String c s' =>
      match compile_text s' with
      | None => None
      | Some p =>
          if Ascii.eqb c dot then Some (Any :: p)
          else if is_special c then None
          else Some (Lit c :: p)
      end
  end.

(** The instructions of a text of ordinary characters and dots. *)
Fixpoint ops (s : string) : pattern :=
  match s with
  | EmptyString => []
  | String c s' => if Ascii.eqb c dot then Any :: ops s' else Lit c :: ops s'
  end.

(** The character before the position reached after reading [read]. *)
Definition prev_after (prev : option ascii) (read : string) : option ascii :=
  match Str.last_char read with
  | Some c => Some c
  | None => prev
  end.

End Re.

(* ================================================================= *)
(** ** simple_parse_python *)

Module Parse.
Import Str Re.

(** One element of the ['functions'] or ['classes'] list. *)
Record decl := Decl {
  name : string;
  line : nat;
  docstring : string;
  type : string
}.

Record parse_result := ParseResult {
  functions : list decl;
  classes : list decl
}.

(** [r'^def\s+(\w+)\s*\('] *)
Definition func_pattern : pattern :=
  [Bol; Lit "d"; Lit "e"; Lit "f"; Plus Space;
   GroupOpen; Plus Word; GroupClose; Star Space; Lit lparen].

(** [r'^class\s+(\w+)'] *)
Definition class_pattern : pattern :=
  [Bol; Lit "c"; Lit "l"; Lit "a"; Lit "s"; Lit "s"; Plus Space;
   GroupOpen; Plus Word; GroupClose].

(** The docstring block, the same text after both patterns: the docstring
    starts empty; if [i + 1 < len(lines)] the next line is stripped and,
    when it starts with three quotes of either kind, it is stripped of the
    double-quote characters and then of the single-quote characters, each
    time with [str.strip(chars)]. *)
Definition try_docstring (lines : list string) (i : nat) : string :=
  match nth_error lines (i + 1) with
  | Some l =>
      let next_line := strip l in
      if startswith next_line triple_dquote
         || startswith next_line triple_squote
      then strip_chars triple_squote (strip_chars triple_dquote next_line)
      else EmptyString
  | None => EmptyString
  end.

(** The body of [for i, line in enumerate(lines)], on the two lists. *)
Definition parse_line (lines : list string) (i : nat) (ln : string)
    (acc : parse_result) : parse_result :=
  let functions' :=
    match re_match func_pattern ln with
    | Some func_match =>
        functions acc ++
        [Decl (group1 ln func_match) (i + 1) (try_docstring lines i)
           "function"]
    | None => functions acc
    end in
  let classes' :=
    match re_match class_pattern ln with
    | Some class_match =>
        classes acc ++
        [Decl (group1 ln class_match) (i + 1) (try_docstring lines i)
           "class"]
    | None => classes acc
    end in
  ParseResult functions' classes'.

Fixpoint parse_loop (lines rest : list string) (i : nat)
    (acc : parse_result) : parse_result :=
  match rest with
  | [] => acc
  | ln :: rest' => parse_loop lines rest' (S i) (parse_line lines i ln acc)
  end.

Definition simple_parse_python (content : string) : parse_result :=
  let lines := split newline content in
  parse_loop lines lines 0 (ParseResult [] []).

(** The records one line contributes to each list. *)
Definition func_at (lines : list string) (i : nat) (ln : string)
    : list decl :=
  match re_match func_pattern ln with
  | Some m => [Decl (group1 ln m) (i + 1) (try_docstring lines i) "function"]
  | None => []
  end.

Definition class_at (lines : list string) (i : nat) (ln : string)
    : list decl :=
  match re_match class_pattern ln with
  | Some m => [Decl (group1 ln m) (i + 1) (try_docstring lines i) "class"]
  | None => []
  end.

(** Following the spec's words for the docstring: the trimmed line with
    only the leading three-character marker removed. *)
Definition leading_marker_only (next_line : string) : string :=
  substring 3 (String.length next_line - 3) next_line.

End Parse.

(* ================================================================= *)
(** ** find_function_calls *)

Module Calls.
Import Str Re.

(** [rf'\b{function_name}\s*\('], the name interpolated as it is. *)
Definition call_pattern (function_name : string) : option pattern :=
  match compile_text function_name with
  | Some p => Some (WordB :: p ++ [Star Space; Lit lparen])
  | None => None
  end.

Fixpoint calls_loop (p : pattern) (rest : list string) (i : nat)
    (calls : list nat) : list nat :=
  match rest with
  | [] => calls
  | ln :: rest' =>
      calls_loop p rest' (S i)
        (match re_search p ln with
         | Some _ => calls ++ [i + 1]
         | None => calls
         end)
  end.

(** [None] only where [call_pattern] is: a name outside the interpreted
    pattern syntax. *)
Definition find_function_calls (content function_name : string)
    : option (list nat) :=
  match call_pattern function_name with
  | Some p => Some (calls_loop p (split newline content) 0 [])
  | None => None
  end.

(** Following the spec's words: the line holds the literal name as a whole
    word (a word boundary before it), then any whitespace, then an opening
    parenthesis. *)
Definition literal_call (function_name ln : string) : Prop :=
  exists pre ws post,
    ln = (pre ++ function_name ++ ws ++ String lparen post)%string /\
    all_chars is_space ws = true /\
    at_boundary (last_char pre)
      (function_name ++ ws ++ String lparen post) = true.

(** A name with no character that has a meaning in a pattern. *)
Definition plain (function_name : string) : bool :=
  all_chars (fun c => negb (is_special c)) function_name.

(** A name whose only characters with a meaning in a pattern are dots. *)
Definition dotted (function_name : string) : bool :=
  all_chars (fun c => Ascii.eqb c dot || negb (is_special c)) function_name.

(** [text] is [function_name] read as a pattern: character for character
    the same, but for the dots of the name, where [text] has any character
    other than a newline. *)
Fixpoint agrees (function_name text : string) : bool :=
  match function_name, text with
  | EmptyString, EmptyString => true
  | String c name', String a text' =>
      (if Ascii.eqb c dot then negb (Ascii.eqb a newline) else Ascii.eqb a c)
      && agrees name' text'
  | _, _ => false
  end.

(** The line holds, at a word boundary, a text that agrees with the name,
    then any whitespace, then an opening parenthesis. *)
Definition pattern_call (function_name ln : string) : Prop :=
  exists pre mid ws post,
    ln = (pre ++ mid ++ ws ++ String lparen post)%string /\
    agrees function_name mid = true /\
    all_chars is_space ws = true /\
    at_boundary (last_char pre) (mid ++ ws ++ String lparen post) = true.

End Calls.

(* ================================================================= *)
(** ** The file system as [os.walk] and [os.path] see it *)

Module Fs.
Import Str.

(** A directory entry is a regular file or a directory, which lists its
    entries in [os.scandir] order when it is readable.  Symbolic links are
    not modelled. *)
Inductive node :=
| File
| Dir (listable : bool) (entries : list (string * node)).

Definition is_dir (n : node) : bool :=
  match n with
  | File => false
  | Dir _ _ => true
  end.

Inductive OSError := FileNotFoundError | NotADirectoryError | PermissionError.

(** [os.scandir(path)], on what [path] resolves to ([None]: nothing). *)
Definition scandir (target : option node) : OSError + list (string * node) :=
  match target with
  | None => inl FileNotFoundError
  | Some File => inl NotADirectoryError
  | Some (Dir false _) => inl PermissionError
  | Some (Dir true entries) => inr entries
  end.

(** The entry a name resolves to inside a directory. *)
Fixpoint lookup (entries : list (string * node)) (d : string) : option node :=
  match entries with
  | [] => None
  | (nm, child) :: entries' =>
      if String.eqb nm d then Some child else lookup entries' d
  end.

Definition dirnames (entries : list (string * node)) : list string :=
  map fst (filter (fun e => is_dir (snd e)) entries).

Definition filenames (entries : list (string * node)) : list string :=
  map fst (filter (fun e => negb (is_dir (snd e))) entries).

Section Walk.
Variable St : Type.

(** One iteration of the caller's [for root, dirs, files in os.walk(..)]
    loop: it receives the directory (its components below the top), the
    two name lists and the caller's state, and returns the new state with
    the [dirs] list as the iteration leaves it.  The generator resumes
    from that list: it is the same list object. *)
Variable body :
  list string -> list string -> list string -> St -> St * list string.

(** [os.walk(top)] with its defaults ([topdown=True], [onerror=None]):
    a directory that cannot be listed is skipped without an error. *)
Fixpoint walk (root : list string) (n : node) (s : St) {struct n} : St :=
  match n with
  | File => s
  | Dir false _ => s
  | Dir true entries =>
      let '(s1, dirs) :=
        body root (dirnames entries) (filenames entries) s in
      fold_left
        (fun s d =>
           (fix enter (l : list (string * node)) : St :=
              match l with
              | [] => s
              | (nm, child) :: l' =>
                  if String.eqb nm d then walk (root ++ [d]) child s
                  else enter l'
              end) entries)
        dirs s1
  end.

(** Entering the subdirectory [d]: [os.walk] joins the name to the path
    and lists what it resolves to. *)
Definition enter (root : list string) (entries : list (string * node))
    (s : St) (d : string) : St :=
  match lookup entries d with
  | Some child => walk (root ++ [d]) child s
  | None => s
  end.

Definition walk_top (top : option node) (s : St) : St :=
  match top with
  | None => s
  | Some n => walk [] n s
  end.
End Walk.

(** [os.path.splitext(p)]: the extension starts at the last dot of the
    last path component, unless only dots come before it there. *)
Fixpoint rfind (c : ascii) (s : string) : option nat :=
  match s with
  | EmptyString => None
  | String a s' =>
      match rfind c s' with
      | Some i => Some (S i)
      | None => if Ascii.eqb a c then Some 0 else None
      end
  end.

Fixpoint all_dots (s : string) : bool :=
  match s with
  | EmptyString => true
  | String a s' => Ascii.eqb a dot && all_dots s'
  end.

Definition splitext (p : string) : string * string :=
  let filenameIndex :=
    match rfind slash p with
    | Some sepIndex => S sepIndex
    | None => 0
    end in
  match rfind dot p with
  | Some dotIndex =>
      if (filenameIndex <=? dotIndex)
         && negb (all_dots (substring filenameIndex
                              (dotIndex - filenameIndex) p))
      then (substring 0 dotIndex p,
            substring dotIndex (String.length p - dotIndex) p)
      else (p, EmptyString)
  | None => (p, EmptyString)
  end.

(** [os.path.relpath(os.path.join(root, file), root_path)], where [root]
    is [root_path] followed by the directory names in [below]: for entry
    names (not empty, without separator) normalisation changes nothing and
    what is left of the path below [root_path] is these names and [file]. *)
Definition relpath (below : list string) (file : string) : string :=
  join "/" (below ++ [file]).

End Fs.

(* ================================================================= *)
(** ** build_file_tree *)

Module Tree.
Import Str Fs.

(** A [dict] from [str] to [str], in insertion order. *)
Definition dict := list (string * string).

Fixpoint dict_get (d : dict) (k : string) : option string :=
  match d with
  | [] => None
  | (k', v) :: d' => if String.eqb k' k then Some v else dict_get d' k
  end.

(** [d[k] = v] *)
Fixpoint dict_set (d : dict) (k v : string) : dict :=
  match d with
  | [] => [(k, v)]
  | (k', v') :: d' =>
      if String.eqb k' k then (k', v) :: d' else (k', v') :: dict_set d' k v
  end.

(** [x in xs] on strings *)
Definition str_in (x : string) (xs : list string) : bool :=
  existsb (String.eqb x) xs.

Definition ignore_dirs : list string :=
  [".git"; "node_modules"; "__pycache__"; "venv"; ".venv";
   "env"; "build"; "dist"; ".eggs"; "*.egg-info"; ".tox";
   ".pytest_cache"; ".mypy_cache"; "htmlcov"; ".coverage"].

Definition code_extensions : dict :=
  [(".py", "python");
   (".jac", "jac");
   (".js", "javascript");
   (".ts", "typescript");
   (".java", "java");
   (".cpp", "cpp");
   (".c", "c");
   (".h", "c");
   (".go", "go");
   (".rs", "rust");
   (".rb", "ruby");
   (".php", "php")].

(** The condition of the comprehension assigned to [dirs[:]]. *)
Definition keep_dir (d : string) : bool :=
  negb (str_in d ignore_dirs) && negb (startswith d ".").

(** The body of [for file in files]. *)
Definition visit_file (root : list string) (file_tree : dict)
    (file : string) : dict :=
  if startswith file "." then file_tree
  else
    let relative_path := relpath root file in
    let ext := snd (splitext file) in
    match dict_get code_extensions ext with
    | Some language => dict_set file_tree relative_path language
    | None =>
        if str_in (lower file) ["readme.md"; "readme.txt"; "readme"]
        then dict_set file_tree relative_path "readme"
        else if String.eqb ext ".md"
        then dict_set file_tree relative_path "markdown"
        else file_tree
    end.

(** The body of the loop over [os.walk(root_path)]. *)
Definition walk_body (root dirs files : list string) (file_tree : dict)
    : dict * list string :=
  let dirs := filter keep_dir dirs in
  (fold_left (visit_file root) files file_tree, dirs).

(** [build_file_tree(root_path)], on what [root_path] resolves to. *)
Definition build_file_tree (root_path : option node) : dict :=
  walk_top walk_body root_path [].

(** Following the spec's words, the label of a file that is not hidden:
    (1) the language of its extension, (2) else [readme] for a README
    spelling, (3) else [markdown] for the extension [.md], (4) else none. *)
Definition spec_label (file : string) : option string :=
  let ext := snd (splitext file) in
  match dict_get code_extensions ext with
  | Some language => Some language
  | None =>
      if str_in (lower file) ["readme.md"; "readme.txt"; "readme"]
      then Some "readme"
      else if String.eqb ext ".md" then Some "markdown"
      else None
  end.

(** [seen n below file]: the walk of [n] offers [file] to the loop in the
    directory reached through the names [below], each of them kept by the
    pruning of the directory that lists it. *)
Inductive seen : node -> list string -> string -> Prop :=
| seen_here entries file :
    In file (filenames entries) ->
    seen (Dir true entries) [] file
| seen_below entries d child below file :
    In d (filter keep_dir (dirnames entries)) ->
    lookup entries d = Some child ->
    seen child below file ->
    seen (Dir true entries) (d :: below) file.

Definition slash_free (x : string) : Prop := mem slash x = false.

(** An entry name as [os.scandir] returns it: not empty, no separator. *)
Definition name_ok (nm : string) : bool :=
  negb (String.eqb nm EmptyString) && negb (mem slash nm).

(** Every entry name of the tree is one. *)
Fixpoint names_ok (n : node) : bool :=
  match n with
  | File => true
  | Dir _ entries =>
      (fix all (l : list (string * node)) : bool :=
         match l with
         | [] => true
         | (nm, child) :: l' => name_ok nm && names_ok child && all l'
         end) entries
  end.

End Tree.

(* ================================================================= *)
(** ** Concrete inputs *)

Module Examples.
Import Str Fs.

Definition nl : string := String newline EmptyString.

(** A function with a one-line docstring. *)
Definition foo_source : string :=
  "def foo(x):" ++ nl ++
  "    " ++ triple_dquote ++ "does a thing" ++ triple_dquote ++ nl ++
  "    return x".

(** Three calls, the last one to another function. *)
Definition calls_source : string :=
  "foo(1)" ++ nl ++ "bar(foo(2))" ++ nl ++ "foodbar(3)".

(** A function whose docstring opens on a line of its own. *)
Definition multiline_source : string :=
  "def foo(x):" ++ nl ++
  "    " ++ triple_dquote ++ nl ++
  "    does a thing" ++ nl ++
  "    " ++ triple_dquote.

(** A method inside a class. *)
Definition nested_source : string :=
  "class A:" ++ nl ++ "    def run(self):" ++ nl ++ "        pass".

Definition four_files : node :=
  Dir true
    [("README.md", File); ("notes.md", File); ("main.py", File);
     ("lib.rs", File)].

Definition with_node_modules : node :=
  Dir true
    [("main.py", File);
     ("node_modules", Dir true [("index.js", File)]);
     (".cache", Dir true [("gen.py", File)]);
     ("src", Dir true [("build", Dir true [("out.c", File)]);
                       ("app.ts", File)])].

Definition with_egg_info : node :=
  Dir true
    [("mypkg.egg-info", Dir true [("top.py", File)]);
     ("*.egg-info", Dir true [("top.py", File)])].

Definition empty_dir : node := Dir true [].

End Examples.

(* ================================================================= *)
(** ** extract_repo_name, and the name clone_repo gives the clone *)

Module RepoName.
Import Str.

(** [s.rstrip(chars)] *)
Definition rstrip_chars (chars s : string) : string :=
  rstrip_by (fun c => mem c chars) s.

(** [s[:-n]] for a positive [n] *)
Definition drop_last (n : nat) (s : string) : string :=
  substring 0 (String.length s - n) s.

(** [s.replace(old, new)] for a non-empty [old]: the occurrences are
    taken from the left and do not overlap.  [skip] counts the characters
    of an occurrence still to pass over. *)
Fixpoint replace_from (old new s : string) (skip : nat) : string :=
  match s with
  | EmptyString => EmptyString
  | String c s' =>
      match skip with
      | S k => replace_from old new s' k
      | 0 =>
          if String.prefix old s
          then (new ++ replace_from old new s' (String.length old - 1))%string
          else String c (replace_from old new s' 0)
      end
  end.

Definition replace (old new s : string) : string := replace_from old new s 0.

(** [os.path.join(a, b)] *)
Definition path_join (a b : string) : string :=
  if startswith b "/" then b
  else if String.eqb a EmptyString || endswith a "/" then (a ++ b)%string
  else (a ++ "/" ++ b)%string.

(** [parts[-1] if parts else 'unknown-repo'] *)
Definition last_or_unknown (parts : list string) : string :=
  match parts with
  | [] => "unknown-repo"
  | _ :: _ => last parts EmptyString
  end.

Definition extract_repo_name (repo_url : string) : string :=
  let url := rstrip_chars "/" repo_url in
  let url := if endswith url ".git" then drop_last 4 url else url in
  let parts := split slash url in
  last_or_unknown parts.

(** The first two statements of [clone_repo]: the name and the path of
    the clone. *)
Definition clone_repo_name (repo_url : string) : string :=
  replace ".git" EmptyString (last (split slash repo_url) EmptyString).

Definition clone_target_path (repo_url output_dir : string) : string :=
  path_join output_dir (clone_repo_name repo_url).

Definition dot_free (x : string) : Prop := mem dot x = false.

End RepoName.

(* ================================================================= *)
(** ** read_file, get_readme_summary, count_lines *)

Module Files.
Import Str RepoName.

(** The dictionary [read_file] returns: [success] with the [content], or
    no [success] with the [error] text. *)
Inductive read_result :=
| ReadOk (content : string)
| ReadFailed (error : string).

(** [content[:stop]] *)
Definition slice_to (stop : Z) (s : string) : string :=
  let n := Z.of_nat (String.length s) in
  let stop := if (stop <? 0)%Z then Z.max 0 (n + stop) else Z.min stop n in
  substring 0 (Z.to_nat stop) s.



Definition readme_files : list string :=
  ["README.md"; "readme.md"; "README.txt"; "README"; "readme"].

Definition no_readme : string := "No README file found in repository.".

(** What [get_readme_summary] returns for the text of the README it has
    read: the text, or its start and three dots when it is longer than
    [max_length]. *)
Definition summary_of (max_length : Z) (content : string) : string :=
  if (max_length <? Z.of_nat (String.length content))%Z
  then (slice_to max_length content ++ "...")%string
  else content.

Section World.

(** [os.path.exists(path)] *)
Variable path_exists : string -> bool.

(** Opening [path] for reading as text (UTF-8, undecodable bytes
    ignored) and reading it all: the text, or the text of the exception
    raised on the way. *)
Variable open_read : string -> string + string.

Definition read_file (file_path : string) : read_result :=
  match open_read file_path with
  | inr content => ReadOk content
  | inl e => ReadFailed e
  end.

(** The loop of [get_readme_summary] over the names still to try. *)
Fixpoint readme_loop (root_path : string) (max_length : Z)
    (names : list string) : string :=
  match names with
  | [] => no_readme
  | readme_file :: names' =>
      let readme_path := path_join root_path readme_file in
      if path_exists readme_path then
        match read_file readme_path with
        | ReadOk content =>
            if (max_length <? Z.of_nat (String.length content))%Z
            then (slice_to max_length content ++ "...")%string
            else content
        | ReadFailed _ => readme_loop root_path max_length names'
        end
      else readme_loop root_path max_length names'
  end.

Definition get_readme_summary (root_path : string) (max_length : Z)
    : string :=
  readme_loop root_path max_length readme_files.


End World.

End Files.

Import Str Re Parse Calls Fs Tree Examples.

(* ================================================================= *)
(** * Properties *)

(** ** The loop of simple_parse_python *)

Section ParseLoop.

Lemma parse_line_functions lines i ln acc :
  functions (parse_line lines i ln acc) = functions acc ++ func_at lines i ln.
Proof.
  unfold parse_line, func_at; simpl.
  destruct (re_match func_pattern ln); [reflexivity | now rewrite app_nil_r].
Qed.

Lemma parse_line_classes lines i ln acc :
  classes (parse_line lines i ln acc) = classes acc ++ class_at lines i ln.
Proof.
  unfold parse_line, class_at; simpl.
  destruct (re_match class_pattern ln); [reflexivity | now rewrite app_nil_r].
Qed.

Variable lines : list string.

Lemma parse_loop_functions_in rest : forall i acc r,
  In r (functions (parse_loop lines rest i acc)) <->
  In r (functions acc) \/
  exists j ln, nth_error rest j = Some ln /\ In r (func_at lines (i + j) ln).
Proof.
  induction rest as [|ln rest IH]; intros i acc r; simpl.
  - split; [auto | intros [H | (j & l & H & _)]; [exact H | now destruct j]].
  - rewrite IH, parse_line_functions, in_app_iff. split.
    + intros [[H | H] | (j & l & Hn & H)].
      * now left.
      * right. exists 0, ln. now rewrite Nat.add_0_r.
      * right. exists (S j), l. now rewrite Nat.add_succ_r.
    + intros [H | (j & l & Hn & H)]; [now left; left |].
      destruct j as [|j]; simpl in Hn.
      * injection Hn as <-. rewrite Nat.add_0_r in H. now left; right.
      * right. exists j, l. now rewrite Nat.add_succ_r in H.
Qed.

Lemma parse_loop_classes_in rest : forall i acc r,
  In r (classes (parse_loop lines rest i acc)) <->
  In r (classes acc) \/
  exists j ln, nth_error rest j = Some ln /\ In r (class_at lines (i + j) ln).
Proof.
  induction rest as [|ln rest IH]; intros i acc r; simpl.
  - split; [auto | intros [H | (j & l & H & _)]; [exact H | now destruct j]].
  - rewrite IH, parse_line_classes, in_app_iff. split.
    + intros [[H | H] | (j & l & Hn & H)].
      * now left.
      * right. exists 0, ln. now rewrite Nat.add_0_r.
      * right. exists (S j), l. now rewrite Nat.add_succ_r.
    + intros [H | (j & l & Hn & H)]; [now left; left |].
      destruct j as [|j]; simpl in Hn.
      * injection Hn as <-. rewrite Nat.add_0_r in H. now left; right.
      * right. exists j, l. now rewrite Nat.add_succ_r in H.
Qed.

End ParseLoop.

(** A record of either list comes from one line: the line that carries
    its number matched the pattern of its list, and the docstring is what
    the docstring block computes there. *)
Lemma functions_inv content r :
  In r (functions (simple_parse_python content)) ->
  exists i ln m,
    nth_error (split newline content) i = Some ln /\
    re_match func_pattern ln = Some m /\
    r = Decl (group1 ln m) (i + 1)
          (try_docstring (split newline content) i) "function".
Proof.
  unfold simple_parse_python. intros H.
  apply parse_loop_functions_in in H. destruct H as [[] | (j & ln & Hn & H)].
  unfold func_at in H. simpl in H.
  destruct (re_match func_pattern ln) as [m|] eqn:E; [| contradiction].
  destruct H as [<- | []]. now exists j, ln, m.
Qed.

Lemma classes_inv content r :
  In r (classes (simple_parse_python content)) ->
  exists i ln m,
    nth_error (split newline content) i = Some ln /\
    re_match class_pattern ln = Some m /\
    r = Decl (group1 ln m) (i + 1)
          (try_docstring (split newline content) i) "class".
Proof.
  unfold simple_parse_python. intros H.
  apply parse_loop_classes_in in H. destruct H as [[] | (j & ln & Hn & H)].
  unfold class_at in H. simpl in H.
  destruct (re_match class_pattern ln) as [m|] eqn:E; [| contradiction].
  destruct H as [<- | []]. now exists j, ln, m.
Qed.

(** In both lists the docstring of a record is a function of the line
    after the declaration. *)
Lemma decl_docstring content r :
  In r (functions (simple_parse_python content)) \/
  In r (classes (simple_parse_python content)) ->
  1 <= line r /\
  docstring r = try_docstring (split newline content) (line r - 1).
Proof.
  intros [H | H];
    [apply functions_inv in H | apply classes_inv in H];
    destruct H as (i & ln & m & _ & _ & ->); simpl;
    (split; [lia |]); f_equal; lia.
Qed.

(** ** What [str.strip] removes *)

Lemma lstrip_by_spec p s :
  exists a, s = (a ++ lstrip_by p s)%string /\ all_chars p a = true /\
            (forall c, first_char (lstrip_by p s) = Some c -> p c = false).
Proof.
  induction s as [|c s (a & Hs & Ha & Hf)]; simpl.
  - exists EmptyString. repeat split; simpl; congruence.
  - destruct (p c) eqn:E.
    + exists (String c a). simpl. rewrite E, Ha. repeat split; try congruence; auto.
    + exists EmptyString. simpl. repeat split. intros d [= <-]. exact E.
Qed.

Lemma rstrip_by_spec p s :
  exists b, s = (rstrip_by p s ++ b)%string /\ all_chars p b = true /\
            (forall c, last_char (rstrip_by p s) = Some c -> p c = false) /\
            (forall c, first_char (rstrip_by p s) = Some c ->
                       first_char s = Some c).
Proof.
  induction s as [|c s (b & Hs & Hb & Hl & Hf)]; simpl.
  - exists EmptyString. repeat split; simpl; congruence.
  - destruct (rstrip_by p s) as [|d r] eqn:R.
    + destruct (p c) eqn:E.
      * exists (String c b). simpl in *. rewrite E, Hb.
        repeat split; try congruence; auto.
      * exists b. simpl in *. repeat split; congruence.
    + exists b. simpl in *. repeat split; try congruence.
      intros x Hx. apply Hl.
      destruct (last_char r); congruence.
Qed.

Lemma strip_by_spec p s : stripped_of p s (strip_by p s).
Proof.
  unfold strip_by, stripped_of.
  destruct (lstrip_by_spec p s) as (a & Hs & Ha & Hf).
  destruct (rstrip_by_spec p (lstrip_by p s)) as (b & Hr & Hb & Hl & Hf').
  exists a, b. repeat split; auto.
  rewrite Hs at 1. now rewrite <- Hr.
Qed.

Lemma strip_by_ext p q s :
  (forall c, p c = q c) -> strip_by p s = strip_by q s.
Proof.
  intros H. unfold strip_by.
  assert (L : forall t, lstrip_by p t = lstrip_by q t).
  { induction t as [|c t IH]; simpl; [reflexivity |]. now rewrite IH, H. }
  assert (R : forall t, rstrip_by p t = rstrip_by q t).
  { induction t as [|c t IH]; simpl; [reflexivity |]. now rewrite IH, H. }
  now rewrite L, R.
Qed.

(** A repeated character in the argument of [str.strip] changes nothing:
    the argument is a set. *)
Lemma strip_chars_dquote s :
  strip_chars triple_dquote s = strip_by (fun c => Ascii.eqb c dquote) s.
Proof.
  apply strip_by_ext. intros c. simpl.
  destruct (Ascii.eqb c dquote); reflexivity.
Qed.

Lemma strip_chars_squote s :
  strip_chars triple_squote s = strip_by (fun c => Ascii.eqb c squote) s.
Proof.
  apply strip_by_ext. intros c. simpl.
  destruct (Ascii.eqb c squote); reflexivity.
Qed.

(** ** Docstrings *)

(** C5: the text [def foo(x):], a line with the one-line docstring
    [does a thing] between triple quotes, and [return x] yields exactly one
    function record, with name [foo], line 1 and docstring [does a thing]
    (the quote markers stripped), and no class record. *)
Theorem foo_source_one_function :
  simple_parse_python foo_source =
  ParseResult [Decl "foo" 1 "does a thing" "function"] [].
Proof. vm_compute. reflexivity. Qed.

(** C9: when the line after a matched declaration is, once trimmed, a bare
    triple-quote marker of either kind, the record carries the empty
    docstring: the same value as when that line opens no string at all. *)
Theorem bare_marker_empty_docstring content r next :
  In r (functions (simple_parse_python content)) \/
  In r (classes (simple_parse_python content)) ->
  nth_error (split newline content) (line r) = Some next ->
  strip next = triple_dquote \/ strip next = triple_squote \/
  (startswith (strip next) triple_dquote = false /\
   startswith (strip next) triple_squote = false) ->
  docstring r = EmptyString.
Proof.
  intros Hr Hn Hs. apply decl_docstring in Hr. destruct Hr as [Hl ->].
  unfold try_docstring. replace (line r - 1 + 1) with (line r) by lia.
  rewrite Hn. cbv zeta.
  destruct Hs as [-> | [-> | [-> ->]]]; reflexivity.
Qed.

Lemma bare_marker_empty_docstring_witness :
  In (Decl "foo" 1 EmptyString "function")
     (functions (simple_parse_python multiline_source)) /\
  docstring (Decl "foo" 1 EmptyString "function") = EmptyString.
Proof.
  assert (H : In (Decl "foo" 1 EmptyString "function")
                 (functions (simple_parse_python multiline_source)))
    by (vm_compute; left; reflexivity).
  split; [exact H |].
  apply (@bare_marker_empty_docstring multiline_source _
           ("    " ++ triple_dquote)%string).
  - left. exact H.
  - reflexivity.
  - left. reflexivity.
Defined.

(** C3, as stated, fails: the closing marker of a one-line docstring is
    removed too. *)
Lemma leading_marker_only_counterexample :
  let r := Decl "foo" 1 "does a thing" "function" in
  let next :=
    ("    " ++ triple_dquote ++ "does a thing" ++ triple_dquote)%string in
  In r (functions (simple_parse_python foo_source)) /\
  nth_error (split newline foo_source) (line r) = Some next /\
  startswith (strip next) triple_dquote = true /\
  leading_marker_only (strip next) = ("does a thing" ++ triple_dquote)%string /\
  docstring r <> leading_marker_only (strip next).
Proof.
  cbv zeta. repeat split.
  - vm_compute. left. reflexivity.
  - vm_compute. discriminate.
Qed.

(** C3, amended: when the line after a matched declaration starts, once
    trimmed, with a triple-quote marker, the docstring is that trimmed
    line without its leading and trailing double-quote characters and
    then without its leading and trailing single-quote characters: as
    many as there are, at both ends. *)
Theorem docstring_strips_both_ends content r next :
  In r (functions (simple_parse_python content)) \/
  In r (classes (simple_parse_python content)) ->
  nth_error (split newline content) (line r) = Some next ->
  startswith (strip next) triple_dquote = true \/
  startswith (strip next) triple_squote = true ->
  exists mid,
    stripped_of (fun c => Ascii.eqb c dquote) (strip next) mid /\
    stripped_of (fun c => Ascii.eqb c squote) mid (docstring r).
Proof.
  intros Hr Hn Hs. apply decl_docstring in Hr. destruct Hr as [Hl ->].
  unfold try_docstring. replace (line r - 1 + 1) with (line r) by lia.
  rewrite Hn. cbv zeta.
  assert (E : startswith (strip next) triple_dquote
              || startswith (strip next) triple_squote = true)
    by (destruct Hs as [-> | ->]; [reflexivity | apply orb_true_r]).
  rewrite E.
  exists (strip_chars triple_dquote (strip next)). split.
  - rewrite strip_chars_dquote. apply strip_by_spec.
  - rewrite strip_chars_squote. apply strip_by_spec.
Qed.

Lemma docstring_strips_both_ends_witness :
  exists mid,
    stripped_of (fun c => Ascii.eqb c dquote)
      (strip ("    " ++ triple_dquote ++ "does a thing" ++ triple_dquote)%string)
      mid /\
    stripped_of (fun c => Ascii.eqb c squote) mid
      (docstring (Decl "foo" 1 "does a thing" "function")).
Proof.
  apply (@docstring_strips_both_ends foo_source).
  - left. vm_compute. left. reflexivity.
  - reflexivity.
  - left. reflexivity.
Defined.

(** ** Declarations start at column 0 *)

Lemma startswith_head c s k p :
  startswith (String c s) (String k p) = true -> c = k.
Proof.
  unfold startswith. cbn [prefix].
  destruct (ascii_dec k c); [auto | discriminate].
Qed.

Lemma func_pattern_prefix ln m :
  re_match func_pattern ln = Some m -> startswith ln "def" = true.
Proof.
  unfold re_match, func_pattern, startswith. intros H.
  do 3 (destruct ln as [|? ln]; [discriminate H |];
        cbn [exec] in H;
        match type of H with
        | (if Ascii.eqb ?a ?b then _ else _) = _ =>
            destruct (Ascii.eqb_spec a b); [subst | discriminate H]
        end).
  destruct ln; reflexivity.
Qed.

Lemma class_pattern_prefix ln m :
  re_match class_pattern ln = Some m -> startswith ln "class" = true.
Proof.
  unfold re_match, class_pattern, startswith. intros H.
  do 5 (destruct ln as [|? ln]; [discriminate H |];
        cbn [exec] in H;
        match type of H with
        | (if Ascii.eqb ?a ?b then _ else _) = _ =>
            destruct (Ascii.eqb_spec a b); [subst | discriminate H]
        end).
  destruct ln; reflexivity.
Qed.

(** C8: a record of line [i + 1] exists only when line [i] starts with
    the keyword of its list at column 0; in particular that line does not
    start with whitespace. *)
Theorem declarations_start_at_column_0 content r i ln :
  nth_error (split newline content) i = Some ln ->
  line r = i + 1 ->
  (In r (functions (simple_parse_python content)) ->
   startswith ln "def" = true) /\
  (In r (classes (simple_parse_python content)) ->
   startswith ln "class" = true) /\
  (In r (functions (simple_parse_python content)) \/
   In r (classes (simple_parse_python content)) ->
   forall c, first_char ln = Some c -> is_space c = false).
Proof.
  intros Hn Hl.
  assert (F : In r (functions (simple_parse_python content)) ->
              startswith ln "def" = true).
  { intros H. apply functions_inv in H.
    destruct H as (j & l & m & Hj & Hm & ->). simpl in Hl.
    assert (j = i) by lia. subst j.
    rewrite Hn in Hj. injection Hj as <-.
    exact (func_pattern_prefix _ Hm). }
  assert (C : In r (classes (simple_parse_python content)) ->
              startswith ln "class" = true).
  { intros H. apply classes_inv in H.
    destruct H as (j & l & m & Hj & Hm & ->). simpl in Hl.
    assert (j = i) by lia. subst j.
    rewrite Hn in Hj. injection Hj as <-.
    exact (class_pattern_prefix _ Hm). }
  repeat split; auto.
  intros [H | H] c Hc; [apply F in H | apply C in H];
    destruct ln as [|a ln]; try discriminate;
    injection Hc as ->;
    apply startswith_head in H; subst c; reflexivity.
Qed.

Lemma declarations_start_at_column_0_witness :
  simple_parse_python nested_source =
    ParseResult [] [Decl "A" 1 EmptyString "class"] /\
  startswith "class A:" "class" = true /\
  (forall c, first_char "class A:" = Some c -> is_space c = false).
Proof.
  split; [vm_compute; reflexivity |].
  assert (H : In (Decl "A" 1 EmptyString "class")
                (classes (simple_parse_python nested_source)))
    by (vm_compute; left; reflexivity).
  destruct (@declarations_start_at_column_0 nested_source
              (Decl "A" 1 EmptyString "class") 0 "class A:"
              eq_refl eq_refl) as (_ & C & S).
  split; [exact (C H) | exact (S (or_intror H))].
Defined.

(** ** Call sites *)

(** C6: with the name [foo], the text [foo(1)], [bar(foo(2))],
    [foodbar(3)] on three lines gives the line numbers 1 and 2 and not 3. *)
Theorem calls_source_lines :
  find_function_calls calls_source "foo" = Some [1; 2].
Proof. vm_compute. reflexivity. Qed.

(** In [foodbar(3)] the name stands at a word boundary; the line is left
    out because no parenthesis follows the name. *)
Remark foodbar_not_a_call :
  at_boundary None "foodbar(3)" = true /\
  re_search [WordB; Lit "f"; Lit "o"; Lit "o"; Star Space; Lit lparen]
    "foodbar(3)" = None.
Proof. split; vm_compute; reflexivity. Qed.

Section StringFacts.

Lemma append_nil_r (s : string) : (s ++ EmptyString)%string = s.
Proof. induction s; simpl; congruence. Qed.

Lemma append_assoc (a b c : string) :
  ((a ++ b) ++ c)%string = (a ++ (b ++ c))%string.
Proof. induction a; simpl; congruence. Qed.

Lemma length_append (a b : string) :
  String.length (a ++ b) = String.length a + String.length b.
Proof. induction a; simpl; congruence. Qed.

Lemma mem_append c (a b : string) : mem c (a ++ b) = mem c a || mem c b.
Proof.
  induction a as [|x a IH]; simpl; [reflexivity |].
  now rewrite IH, orb_assoc.
Qed.

Lemma last_char_append_one (a : string) c :
  last_char (a ++ String c EmptyString) = Some c.
Proof.
  induction a as [|x a IH]; simpl; [reflexivity | now rewrite IH].
Qed.

Lemma prev_after_nil prev : prev_after prev EmptyString = prev.
Proof. reflexivity. Qed.

Lemma prev_after_cons prev c s :
  prev_after prev (String c s) = prev_after (Some c) s.
Proof. unfold prev_after. simpl. now destruct (last_char s). Qed.

End StringFacts.

Section Matching.

(** A dotted text compiles to its characters, a dot to the wildcard. *)
Lemma compile_dotted name :
  dotted name = true -> compile_text name = Some (ops name).
Proof.
  unfold dotted. induction name as [|c name IH]; cbn [all_chars compile_text ops];
    [reflexivity |].
  intros H. apply andb_true_iff in H. destruct H as [Hc Hn].
  rewrite (IH Hn). destruct (Ascii.eqb c dot); [reflexivity |].
  simpl in Hc. apply negb_true_iff in Hc. now rewrite Hc.
Qed.

Lemma plain_dotted name : plain name = true -> dotted name = true.
Proof.
  unfold plain, dotted. induction name as [|c name IH]; simpl; [reflexivity |].
  intros H. apply andb_true_iff in H. destruct H as [Hc Hn].
  rewrite Hc, (IH Hn). now rewrite orb_true_r.
Qed.

(** Without a dot in the name, only the name agrees with it. *)
Lemma agrees_plain name : forall text,
  plain name = true -> (agrees name text = true <-> text = name).
Proof.
  unfold plain. induction name as [|c name IH]; intros text P.
  - destruct text; simpl; split; congruence.
  - cbn [all_chars] in P. apply andb_true_iff in P. destruct P as [Hc Hn].
    assert (D : Ascii.eqb c dot = false).
    { apply negb_true_iff in Hc. unfold is_special in Hc.
      cbn [special_chars mem] in Hc. apply orb_false_iff in Hc. tauto. }
    destruct text as [|a text]; cbn [agrees]; [split; discriminate |].
    rewrite D, andb_true_iff, (IH text Hn), Ascii.eqb_eq.
    split; [intros [-> ->]; reflexivity | intros [= -> ->]; auto].
Qed.

(** The instructions of a name read a text that agrees with it. *)
Lemma exec_ops name : forall q prev pos s gs ge m,
  exec (ops name ++ q) prev pos s gs ge = Some m <->
  exists mid rest,
    s = (mid ++ rest)%string /\ agrees name mid = true /\
    exec q (prev_after prev mid) (pos + String.length mid) rest gs ge
    = Some m.
Proof.
  induction name as [|c name IH]; intros q prev pos s gs ge m.
  - cbn [ops app]. split.
    + intros H. exists EmptyString, s. simpl. now rewrite Nat.add_0_r.
    + intros (mid & rest & -> & A & H). destruct mid; [| discriminate A].
      simpl in H. now rewrite Nat.add_0_r in H.
  - assert (Step : forall a s',
              (if Ascii.eqb c dot then negb (Ascii.eqb a newline)
               else Ascii.eqb a c) = true ->
              (exec (ops name ++ q) (Some a) (S pos) s' gs ge = Some m <->
               exists mid rest,
                 String a s' = (mid ++ rest)%string /\
                 agrees (String c name) mid = true /\
                 exec q (prev_after prev mid) (pos + String.length mid)
                   rest gs ge = Some m)).
    { intros a s' Ha. rewrite IH. split.
      - intros (mid & rest & -> & A & H). exists (String a mid), rest.
        cbn [agrees]. rewrite Ha, A, prev_after_cons. simpl String.length.
        rewrite Nat.add_succ_r. auto.
      - intros (mid & rest & E & A & H).
        destruct mid as [|x mid]; [discriminate A |].
        simpl in E. injection E as <- ->. cbn [agrees] in A.
        apply andb_true_iff in A. destruct A as [_ A].
        rewrite prev_after_cons in H. simpl String.length in H.
        rewrite Nat.add_succ_r in H. now exists mid, rest. }
    assert (Stop : forall a s',
              (if Ascii.eqb c dot then negb (Ascii.eqb a newline)
               else Ascii.eqb a c) = false ->
              ~ exists mid rest,
                  String a s' = (mid ++ rest)%string /\
                  agrees (String c name) mid = true /\
                  exec q (prev_after prev mid) (pos + String.length mid)
                    rest gs ge = Some m).
    { intros a s' Ha (mid & rest & E & A & _).
      destruct mid as [|x mid]; [discriminate A |].
      simpl in E. injection E as <- _. cbn [agrees] in A.
      rewrite Ha in A. discriminate A. }
    cbn [ops]. destruct s as [|a s].
    + split.
      * destruct (Ascii.eqb c dot); discriminate.
      * intros (mid & rest & E & A & _).
        destruct mid; [discriminate A | discriminate E].
    + specialize (Step a s). specialize (Stop a s).
      destruct (Ascii.eqb c dot); cbn [app exec].
      * destruct (Ascii.eqb a newline); simpl in Step, Stop.
        -- split; [discriminate | intros H; now destruct Stop].
        -- now apply Step.
      * destruct (Ascii.eqb a c).
        -- now apply Step.
        -- split; [discriminate | intros H; now destruct Stop].
Qed.

(** The end of the call pattern: whitespace, then the parenthesis. *)
Lemma exec_tail_some s : forall prev pos gs ge,
  (exists m, exec [Star Space; Lit lparen] prev pos s gs ge = Some m) <->
  exists ws post,
    s = (ws ++ String lparen post)%string /\ all_chars is_space ws = true.
Proof.
  cbn [exec].
  induction s as [|a s IH]; intros prev pos gs ge; cbn [greedy].
  - split.
    + intros (m & H). discriminate H.
    + intros (ws & post & E & _). destruct ws; discriminate E.
  - split.
    + intros (m & H).
      assert (P : (if Ascii.eqb a lparen
                   then Some (MatchObj (S pos) gs ge) else None) = Some m ->
                  exists ws post,
                    String a s = (ws ++ String lparen post)%string /\
                    all_chars is_space ws = true).
      { destruct (Ascii.eqb_spec a lparen) as [-> |]; [| discriminate].
        intros _. now exists EmptyString, s. }
      destruct (in_set Space a) eqn:Sp; [| now apply P].
      destruct (greedy Space _ (Some a) (S pos) s) as [m' |] eqn:G;
        [| now apply P].
      destruct (proj1 (IH (Some a) (S pos) gs ge)) as (ws & post & -> & W).
      { now exists m'. }
      exists (String a ws), post. simpl in *. now rewrite Sp, W.
    + intros (ws & post & E & W). destruct ws as [|w ws].
      * simpl in E. injection E as -> ->.
        change (in_set Space lparen) with false. cbn.
        now eexists.
      * simpl in E, W. injection E as -> ->.
        apply andb_true_iff in W. destruct W as [Wa W].
        simpl in_set. rewrite Wa.
        destruct (proj2 (IH (Some w) (S pos) gs ge)) as (m & ->).
        { now exists ws, post. }
        now eexists.
Qed.

(** [search] finds a match when one starts at some position. *)
Lemma search_from_some p s : forall prev pos,
  (exists m, search_from p prev pos s = Some m) <->
  exists pre rest,
    s = (pre ++ rest)%string /\
    exists m, exec p (prev_after prev pre) (pos + String.length pre)
                rest 0 0 = Some m.
Proof.
  induction s as [|a s IH]; intros prev pos; cbn [search_from].
  - split.
    + intros (m & H). exists EmptyString, EmptyString. split; [reflexivity |].
      simpl. rewrite Nat.add_0_r, prev_after_nil.
      destruct (exec p prev pos EmptyString 0 0); [now eexists | discriminate].
    + intros (pre & rest & E & m & H).
      destruct pre; [| discriminate E]. simpl in E. subst rest.
      simpl in H. rewrite Nat.add_0_r, prev_after_nil in H.
      rewrite H. now eexists.
  - split.
    + intros (m & H).
      destruct (exec p prev pos (String a s) 0 0) as [m' |] eqn:X.
      * exists EmptyString, (String a s). split; [reflexivity |].
        simpl. rewrite Nat.add_0_r, prev_after_nil, X. now eexists.
      * destruct (proj1 (IH (Some a) (S pos))) as (pre & rest & -> & m' & H').
        { now exists m. }
        exists (String a pre), rest. split; [reflexivity |].
        rewrite prev_after_cons. simpl. rewrite Nat.add_succ_r.
        now exists m'.
    + intros (pre & rest & E & m & H). destruct pre as [|x pre].
      * simpl in E. subst rest. simpl in H.
        rewrite Nat.add_0_r, prev_after_nil in H. rewrite H. now eexists.
      * simpl in E. injection E as <- ->.
        destruct (exec p prev pos _ 0 0); [now eexists |].
        apply IH. exists pre, rest. split; [reflexivity |].
        rewrite prev_after_cons in H. simpl in H.
        rewrite Nat.add_succ_r in H. now exists m.
Qed.

End Matching.

Section CallsLoop.

Variable p : pattern.

Lemma calls_loop_app rest : forall i calls,
  calls_loop p rest i calls = calls ++ calls_loop p rest i [].
Proof.
  induction rest as [|ln rest IH]; intros i calls; simpl.
  - now rewrite app_nil_r.
  - destruct (re_search p ln); [| apply IH].
    rewrite IH, (IH _ [i + 1]). symmetry. apply app_assoc.
Qed.

Lemma calls_loop_in rest : forall i n,
  In n (calls_loop p rest i []) <->
  exists j ln,
    nth_error rest j = Some ln /\
    (exists m, re_search p ln = Some m) /\ n = i + j + 1.
Proof.
  induction rest as [|ln rest IH]; intros i n; simpl.
  - split; [intros [] | intros (j & l & H & _); now destruct j].
  - rewrite calls_loop_app, in_app_iff, IH. split.
    + intros [H | (j & l & Hn & Hm & ->)].
      * destruct (re_search p ln) as [m|] eqn:E; [| destruct H].
        destruct H as [<- | []]. exists 0, ln.
        split; [reflexivity | split; [now exists m | lia]].
      * exists (S j), l. split; [exact Hn | split; [exact Hm | lia]].
    + intros (j & l & Hn & (m & Hm) & ->). destruct j as [|j]; simpl in Hn.
      * injection Hn as <-. left. rewrite Hm. left. lia.
      * right. exists j, l.
        split; [exact Hn | split; [now exists m | lia]].
Qed.

Lemma calls_loop_sorted rest : forall i,
  StronglySorted lt (calls_loop p rest i []).
Proof.
  induction rest as [|ln rest IH]; intros i; simpl; [constructor |].
  rewrite calls_loop_app.
  destruct (re_search p ln); simpl; [| apply IH].
  constructor; [apply IH |].
  apply Forall_forall. intros n H. apply calls_loop_in in H.
  destruct H as (j & _ & _ & _ & ->). lia.
Qed.

End CallsLoop.

Lemma prev_after_none pre : prev_after None pre = last_char pre.
Proof. unfold prev_after. now destruct (last_char pre). Qed.

(** The pattern of a name finds a line exactly when the line holds a
    text that agrees with the name, at a word boundary, then whitespace
    and a parenthesis. *)
Lemma search_name name ln :
  (exists m, re_search (WordB :: ops name ++ [Star Space; Lit lparen]) ln
             = Some m) <->
  pattern_call name ln.
Proof.
  unfold re_search, pattern_call. rewrite search_from_some. split.
  - intros (pre & rest & -> & m & H). rewrite prev_after_none in H.
    cbn [exec] in H.
    destruct (at_boundary (last_char pre) rest) eqn:B; [| discriminate H].
    apply exec_ops in H. destruct H as (mid & rest' & -> & A & H).
    assert (T : exists m, exec [Star Space; Lit lparen]
                            (prev_after (last_char pre) mid)
                            (0 + String.length pre + String.length mid)
                            rest' 0 0 = Some m) by now exists m.
    apply exec_tail_some in T. destruct T as (ws & post & -> & W).
    now exists pre, mid, ws, post.
  - intros (pre & mid & ws & post & -> & A & W & B).
    exists pre, (mid ++ ws ++ String lparen post)%string.
    split; [reflexivity |]. rewrite prev_after_none. cbn [exec]. rewrite B.
    destruct (proj2 (exec_tail_some (ws ++ String lparen post)%string
                       (prev_after (last_char pre) mid)
                       (0 + String.length pre + String.length mid) 0 0))
      as (m & H).
    { now exists ws, post. }
    exists m. apply exec_ops. now exists mid, (ws ++ String lparen post)%string.
Qed.

(** For a plain name this is the literal call of the spec. *)
Lemma pattern_call_plain name ln :
  plain name = true -> (pattern_call name ln <-> literal_call name ln).
Proof.
  intros P. unfold pattern_call, literal_call. split.
  - intros (pre & mid & ws & post & -> & A & W & B).
    apply (@agrees_plain name mid P) in A. subst mid.
    now exists pre, ws, post.
  - intros (pre & ws & post & -> & W & B).
    exists pre, name, ws, post. repeat split; auto.
    now apply (@agrees_plain name name P).
Qed.

(** C2, as stated, fails: the name [foo.] is neither escaped nor refused,
    and its dot matches the [X] of a line that does not hold the name. *)
Lemma verbatim_name_counterexample :
  is_special dot = true /\
  find_function_calls "fooX(1)" "foo." = Some [1] /\
  ~ literal_call "foo." "fooX(1)".
Proof.
  repeat split.
  intros (pre & ws & post & E & _).
  assert (M : mem dot "fooX(1)" = true).
  { rewrite E, !mem_append. simpl. apply orb_true_r. }
  discriminate M.
Qed.

(** C2, amended: the name is used as pattern text, neither escaped nor
    refused.  For a function name of ordinary characters and dots the
    result lists, in ascending order and once each, exactly the numbers of
    the lines that hold, at a word boundary and followed by optional
    whitespace and an opening parenthesis, a text equal to the name but
    for its dots, each of which stands for any one character; for a name
    without any special character that text is the name itself. *)
Theorem name_used_as_pattern content function_name :
  dotted function_name = true ->
  exists calls,
    find_function_calls content function_name = Some calls /\
    StronglySorted lt calls /\
    (forall n,
       In n calls <->
       1 <= n /\
       exists ln,
         nth_error (split newline content) (n - 1) = Some ln /\
         pattern_call function_name ln) /\
    (plain function_name = true ->
     forall ln, pattern_call function_name ln <-> literal_call function_name ln).
Proof.
  intros P. unfold find_function_calls, call_pattern.
  rewrite (@compile_dotted function_name P). eexists. split; [reflexivity |].
  split; [apply calls_loop_sorted |].
  split; [| intros Q ln; now apply pattern_call_plain].
  intros n. rewrite calls_loop_in. split.
  - intros (j & ln & Hn & Hm & ->). split; [lia |].
    exists ln. replace (0 + j + 1 - 1) with j by lia.
    split; [exact Hn | now apply search_name].
  - intros (Hl & ln & Hn & Hc). exists (n - 1), ln.
    split; [exact Hn | split; [now apply search_name | lia]].
Qed.

Lemma name_used_as_pattern_witness :
  exists calls,
    find_function_calls "fooX(1)" "foo." = Some calls /\
    StronglySorted lt calls /\
    (forall n,
       In n calls <->
       1 <= n /\
       exists ln,
         nth_error (split newline "fooX(1)") (n - 1) = Some ln /\
         pattern_call "foo." ln) /\
    (plain "foo." = true ->
     forall ln, pattern_call "foo." ln <-> literal_call "foo." ln).
Proof.
  apply (@name_used_as_pattern "fooX(1)" "foo.").
  reflexivity.
Defined.

(** ** The walk *)

Section NodeInduction.

Variable P : node -> Prop.
Hypothesis P_File : P File.
Hypothesis P_Dir :
  forall b entries, Forall (fun e => P (snd e)) entries -> P (Dir b entries).

Lemma node_induction : forall n, P n.
Proof.
  fix IH 1. intros [|b entries]; [exact P_File |].
  apply P_Dir. induction entries as [|[nm child] entries IHe].
  - constructor.
  - constructor; [exact (IH child) | exact IHe].
Qed.

End NodeInduction.

Lemma lookup_in entries d child :
  lookup entries d = Some child -> In (d, child) entries.
Proof.
  induction entries as [|[nm c] entries IH]; simpl; [discriminate |].
  destruct (String.eqb_spec nm d) as [-> |].
  - intros [= ->]. now left.
  - intros H. right. now apply IH.
Qed.

Section WalkFacts.

Variable St : Type.
Variable body :
  list string -> list string -> list string -> St -> St * list string.

Lemma walk_listable root entries s :
  walk body root (Dir true entries) s =
  let '(s1, dirs) := body root (dirnames entries) (filenames entries) s in
  fold_left (enter body root entries) dirs s1.
Proof.
  cbn [walk].
  destruct (body root (dirnames entries) (filenames entries) s) as [s1 dirs].
  revert s1. induction dirs as [|d dirs IH]; intros s1; [reflexivity |].
  cbn [fold_left]. rewrite <- IH. f_equal.
  unfold enter. clear IH.
  induction entries as [|[nm child] l IHl]; [reflexivity |].
  cbn [lookup]. destruct (String.eqb nm d); [reflexivity | exact IHl].
Qed.

(** The generator and [os.scandir]: a failed listing yields nothing and
    raises nothing, at the top and below it. *)
Lemma walk_scandir root n s :
  walk body root n s =
  match scandir (Some n) with
  | inl _ => s
  | inr entries =>
      let '(s1, dirs) :=
        body root (dirnames entries) (filenames entries) s in
      fold_left (enter body root entries) dirs s1
  end.
Proof.
  destruct n as [|[] entries]; try reflexivity.
  apply walk_listable.
Qed.

Lemma walk_top_scandir top s :
  walk_top body top s =
  match scandir top with
  | inl _ => s
  | inr entries =>
      let '(s1, dirs) :=
        body [] (dirnames entries) (filenames entries) s in
      fold_left (enter body [] entries) dirs s1
  end.
Proof.
  destruct top as [[|[] entries]|]; try reflexivity.
  apply walk_listable.
Qed.

End WalkFacts.

(** ** A root that cannot be listed *)

(** C1, as stated, fails: for a root that does not exist the listing
    fails, and the result is the empty mapping, the same as for an empty
    directory. *)
Lemma missing_root_counterexample :
  scandir None = inl FileNotFoundError /\
  build_file_tree None = [] /\
  build_file_tree None = build_file_tree (Some empty_dir).
Proof. repeat split. Qed.

(** C1, amended: for every root that cannot be listed (it does not exist,
    is not a directory or is not readable) the result is the empty mapping,
    as for an empty directory: no error reaches the caller. *)
Theorem unlistable_root_gives_empty root_path e :
  scandir root_path = inl e ->
  build_file_tree root_path = [] /\
  build_file_tree root_path = build_file_tree (Some empty_dir).
Proof.
  intros H. unfold build_file_tree.
  rewrite walk_top_scandir, H. split; reflexivity.
Qed.

Lemma unlistable_root_gives_empty_witness :
  build_file_tree (Some (Dir false [("main.py", File)])) = [] /\
  build_file_tree (Some (Dir false [("main.py", File)])) =
  build_file_tree (Some empty_dir).
Proof.
  apply (@unlistable_root_gives_empty
           (Some (Dir false [("main.py", File)])) PermissionError).
  reflexivity.
Defined.

(** ** The loop of build_file_tree *)

Section DictFacts.

Lemma dict_get_set d k v k' :
  dict_get (dict_set d k v) k' =
  if String.eqb k k' then Some v else dict_get d k'.
Proof.
  induction d as [|[k0 v0] d IH]; simpl.
  - reflexivity.
  - destruct (String.eqb_spec k0 k) as [-> | N]; simpl.
    + destruct (String.eqb k k'); reflexivity.
    + rewrite IH. destruct (String.eqb_spec k0 k') as [-> | N'];
        [| reflexivity].
      destruct (String.eqb_spec k k'); [congruence | reflexivity].
Qed.

Lemma fold_left_invariant (A B : Type) (f : A -> B -> A) (P : A -> Prop)
    (l : list B) :
  (forall x, In x l -> forall s, P s -> P (f s x)) ->
  forall s, P s -> P (fold_left f l s).
Proof.
  induction l as [|x l IH]; intros H s Hs; simpl; [exact Hs |].
  apply IH.
  - intros y Hy. apply H. now right.
  - apply H; [now left | exact Hs].
Qed.

Lemma fold_left_reaches (A B : Type) (f : A -> B -> A) (Q : A -> Prop)
    (l : list B) x :
  In x l ->
  (forall s, Q (f s x)) ->
  (forall y, In y l -> forall s, Q s -> Q (f s y)) ->
  forall s, Q (fold_left f l s).
Proof.
  induction l as [|y l IH]; intros Hx Hq Hp s; simpl; [destruct Hx |].
  destruct Hx as [-> | Hx].
  - apply fold_left_invariant; [| apply Hq].
    intros z Hz. apply Hp. now right.
  - apply IH; auto. intros z Hz. apply Hp. now right.
Qed.

End DictFacts.

(** The loop body on one file is the spec's labelling, written to the
    relative path. *)
Lemma visit_file_label root file_tree file :
  visit_file root file_tree file =
  if startswith file "." then file_tree
  else match spec_label file with
       | Some l => dict_set file_tree (relpath root file) l
       | None => file_tree
       end.
Proof.
  unfold visit_file, spec_label.
  destruct (startswith file "."); [reflexivity |]. cbv zeta.
  destruct (dict_get code_extensions (snd (splitext file))); [reflexivity |].
  destruct (str_in (lower file) _); [reflexivity |].
  destruct (String.eqb _ ".md"); reflexivity.
Qed.

Lemma walk_body_eq root dirs files file_tree :
  walk_body root dirs files file_tree =
  (fold_left (visit_file root) files file_tree, filter keep_dir dirs).
Proof. reflexivity. Qed.

(** What holds of the mapping before the walk of [n], and is kept by the
    loop body on every file the walk offers, holds after it. *)
Lemma walk_invariant (P : dict -> Prop) : forall n root,
  (forall below file ft,
     seen n below file -> P ft -> P (visit_file (root ++ below) ft file)) ->
  forall s, P s -> P (walk walk_body root n s).
Proof.
  induction n as [|b entries IH] using node_induction;
    intros root H s Hs; [exact Hs |].
  destruct b; [| exact Hs].
  rewrite walk_listable, walk_body_eq.
  apply fold_left_invariant.
  - intros d Hd ft Hft. unfold enter.
    destruct (lookup entries d) as [child|] eqn:L; [| exact Hft].
    pose proof (lookup_in _ _ L) as Hin.
    rewrite Forall_forall in IH. apply (IH _ Hin); [| exact Hft].
    intros below file ft' Hseen Hft'.
    rewrite <- app_assoc. apply H; [| exact Hft'].
    now apply seen_below with child.
  - apply fold_left_invariant; [| exact Hs].
    intros file Hfile ft Hft.
    rewrite <- (app_nil_r root). apply H; [| exact Hft].
    now apply seen_here.
Qed.

(** The loop body does run on every file the walk offers. *)
Lemma walk_reaches (Q : dict -> Prop) n below file :
  seen n below file ->
  forall root,
    (forall ft, Q (visit_file (root ++ below) ft file)) ->
    (forall below' file' ft,
       seen n below' file' -> Q ft ->
       Q (visit_file (root ++ below') ft file')) ->
    forall s, Q (walk walk_body root n s).
Proof.
  induction 1 as [entries file Hfile
                 | entries d child below file Hd L Hseen IH];
    intros root Hq Hp s; rewrite walk_listable, walk_body_eq.
  - apply fold_left_invariant.
    + intros d Hd ft Hft. unfold enter.
      destruct (lookup entries d) as [child|] eqn:L; [| exact Hft].
      apply walk_invariant; [| exact Hft].
      intros below' file' ft' S' Hft'. rewrite <- app_assoc.
      apply Hp; [| exact Hft']. now apply seen_below with child.
    + apply fold_left_reaches with file; [exact Hfile | |].
      * intros ft. rewrite <- (app_nil_r root). apply Hq.
      * intros f Hf ft Hft. rewrite <- (app_nil_r root).
        apply Hp; [| exact Hft]. now apply seen_here.
  - apply fold_left_reaches with d; [exact Hd | |].
    + intros ft. unfold enter. rewrite L. apply IH.
      * intros ft'. rewrite <- app_assoc. apply Hq.
      * intros below' file' ft' S' Hft'. rewrite <- app_assoc.
        apply Hp; [| exact Hft']. now apply seen_below with child.
    + intros d' Hd' ft Hft. unfold enter.
      destruct (lookup entries d') as [child'|] eqn:L'; [| exact Hft].
      apply walk_invariant; [| exact Hft].
      intros below' file' ft' S' Hft'. rewrite <- app_assoc.
      apply Hp; [| exact Hft']. now apply seen_below with child'.
Qed.

(** ** Relative paths *)

Section Paths.

Lemma split_slash_free p : slash_free p -> split slash p = [p].
Proof.
  unfold slash_free.
  induction p as [|c p IH]; cbn [split mem]; [reflexivity |].
  intros H. apply orb_false_iff in H. destruct H as [Hc Hp].
  rewrite Ascii.eqb_sym, Hc, (IH Hp). reflexivity.
Qed.

Lemma split_append p rest :
  slash_free p ->
  split slash (p ++ String slash rest) = p :: split slash rest.
Proof.
  unfold slash_free. induction p as [|c p IH]; cbn [split mem append].
  - intros _. now rewrite Ascii.eqb_refl.
  - intros H. apply orb_false_iff in H. destruct H as [Hc Hp].
    rewrite Ascii.eqb_sym, Hc, (IH Hp). reflexivity.
Qed.

Lemma split_join parts :
  parts <> [] -> Forall slash_free parts ->
  split slash (join "/" parts) = parts.
Proof.
  induction parts as [|p parts IH]; intros N F; [contradiction |].
  inversion F as [|? ? Hp Hps]; subst.
  destruct parts as [|q parts].
  - simpl. now apply split_slash_free.
  - change (join "/" (p :: q :: parts))
      with (p ++ String slash (join "/" (q :: parts)))%string.
    rewrite split_append by exact Hp.
    rewrite IH; [reflexivity | discriminate | exact Hps].
Qed.

Lemma split_relpath below file :
  Forall slash_free (below ++ [file]) ->
  split slash (relpath below file) = below ++ [file].
Proof.
  intros F. unfold relpath. apply split_join; [| exact F].
  destruct below; discriminate.
Qed.

(** Two files with the same relative path have the same name. *)
Lemma relpath_inj below file below' file' :
  Forall slash_free (below ++ [file]) ->
  Forall slash_free (below' ++ [file']) ->
  relpath below file = relpath below' file' ->
  below = below' /\ file = file'.
Proof.
  intros F F' E. apply app_inj_tail.
  rewrite <- (split_relpath _ _ F), <- (split_relpath _ _ F').
  now rewrite E.
Qed.

End Paths.

Section Seen.

Lemma names_ok_entry b entries nm child :
  names_ok (Dir b entries) = true -> In (nm, child) entries ->
  slash_free nm /\ names_ok child = true.
Proof.
  cbn [names_ok]. induction entries as [|[nm' c] entries IH]; intros H I.
  - destruct I.
  - apply andb_true_iff in H. destruct H as [H Hl].
    apply andb_true_iff in H. destruct H as [Hn Hc].
    destruct I as [[= -> ->] | I]; [| now apply IH].
    split; [| exact Hc]. unfold name_ok in Hn.
    apply andb_true_iff in Hn. now apply negb_true_iff.
Qed.

Lemma filenames_in entries file :
  In file (filenames entries) -> exists n, In (file, n) entries.
Proof.
  unfold filenames. rewrite in_map_iff.
  intros ([nm n] & <- & H). apply filter_In in H. now exists n.
Qed.

Lemma seen_slash_free n below file :
  seen n below file -> names_ok n = true ->
  Forall slash_free (below ++ [file]).
Proof.
  induction 1 as [entries file Hfile
                 | entries d child below file Hd L Hseen IH]; intros Hok.
  - apply filenames_in in Hfile. destruct Hfile as (n & Hin).
    constructor; [| constructor].
    exact (proj1 (names_ok_entry _ _ _ _ Hok Hin)).
  - apply lookup_in in L.
    destruct (names_ok_entry _ _ _ _ Hok L) as [Hd' Hc].
    simpl. constructor; [exact Hd' | now apply IH].
Qed.

Lemma seen_kept n below file :
  seen n below file -> Forall (fun d => keep_dir d = true) below.
Proof.
  induction 1 as [| entries d child below file Hd L Hseen IH];
    constructor; [| exact IH].
  apply filter_In in Hd. tauto.
Qed.

End Seen.

(** Every key of the result is the relative path of a file the walk
    offered, not hidden and with a label, which is its value. *)
Lemma build_file_tree_keys t path label :
  dict_get (build_file_tree (Some t)) path = Some label ->
  exists below file,
    seen t below file /\ startswith file "." = false /\
    path = relpath below file /\ spec_label file = Some label.
Proof.
  unfold build_file_tree, walk_top. revert path label.
  apply (@walk_invariant
           (fun ft => forall path label,
              dict_get ft path = Some label ->
              exists below file,
                seen t below file /\ startswith file "." = false /\
                path = relpath below file /\ spec_label file = Some label)).
  - intros below file ft Hseen Hft path label.
    rewrite visit_file_label. simpl app.
    destruct (startswith file ".") eqn:Hh; [apply Hft |].
    destruct (spec_label file) as [l|] eqn:Hl; [| apply Hft].
    rewrite dict_get_set.
    destruct (String.eqb_spec (relpath below file) path) as [<- |];
      [| apply Hft].
    intros [= <-]. now exists below, file.
  - intros path label H. discriminate H.
Qed.

(** ** Ignored directories *)

Lemma fold_left_ext_in (A B : Type) (f g : A -> B -> A) (l : list B) :
  (forall x, In x l -> forall s, f s x = g s x) ->
  forall s, fold_left f l s = fold_left g l s.
Proof.
  induction l as [|x l IH]; intros H s; simpl; [reflexivity |].
  rewrite (H x (or_introl eq_refl)). apply IH.
  intros y Hy. apply H. now right.
Qed.

Lemma lookup_app_other before after d c c' x :
  x <> d ->
  lookup (before ++ (d, c) :: after) x = lookup (before ++ (d, c') :: after) x.
Proof.
  intros N. induction before as [|[nm n] before IH]; simpl.
  - destruct (String.eqb_spec d x); [congruence | reflexivity].
  - now rewrite IH.
Qed.

(** The pruning comes before the descent: what a pruned directory holds
    is never listed, so it has no effect on the result. *)
Remark pruned_contents_unread before after d b b' content content' root s :
  keep_dir d = false ->
  walk walk_body root (Dir true (before ++ (d, Dir b content) :: after)) s =
  walk walk_body root (Dir true (before ++ (d, Dir b' content') :: after)) s.
Proof.
  intros K. rewrite !walk_listable, !walk_body_eq.
  assert (D : dirnames (before ++ (d, Dir b content) :: after)
              = dirnames (before ++ (d, Dir b' content') :: after)).
  { unfold dirnames. rewrite !filter_app, !map_app. reflexivity. }
  assert (F : filenames (before ++ (d, Dir b content) :: after)
              = filenames (before ++ (d, Dir b' content') :: after)).
  { unfold filenames. rewrite !filter_app, !map_app. reflexivity. }
  rewrite D, F. apply fold_left_ext_in.
  intros x Hx ft. apply filter_In in Hx. destruct Hx as [_ Hx].
  unfold enter. rewrite (@lookup_app_other before after d
                           (Dir b content) (Dir b' content') x);
    [reflexivity | congruence].
Qed.

(** C4: no key of the result lies inside a directory whose name is in
    the ignore set or starts with a dot, whatever that directory holds:
    every directory component of every key passed the pruning. *)
Theorem ignored_directories_pruned t path label d :
  names_ok t = true ->
  dict_get (build_file_tree (Some t)) path = Some label ->
  In d (removelast (split slash path)) ->
  str_in d ignore_dirs = false /\ startswith d "." = false.
Proof.
  intros Hok Hget Hd.
  apply build_file_tree_keys in Hget.
  destruct Hget as (below & file & Hseen & _ & -> & _).
  rewrite split_relpath in Hd by now apply seen_slash_free with t.
  rewrite removelast_last in Hd.
  pose proof (seen_kept Hseen) as K. rewrite Forall_forall in K.
  specialize (K d Hd). unfold keep_dir in K.
  apply andb_true_iff in K. destruct K as [K1 K2].
  split; now apply negb_true_iff.
Qed.

Lemma ignored_directories_pruned_witness :
  build_file_tree (Some with_node_modules) =
    [("main.py", "python"); ("src/app.ts", "typescript")] /\
  str_in "src" ignore_dirs = false /\ startswith "src" "." = false.
Proof.
  split; [reflexivity |].
  apply (@ignored_directories_pruned with_node_modules
           "src/app.ts" "typescript" "src").
  - reflexivity.
  - reflexivity.
  - simpl. left. reflexivity.
Defined.

(** ** Labels *)

(** C7: in the result, a file that the walk offered and that is not
    hidden has the label the four rules give in their order (language of
    the extension, else readme, else markdown, else no entry); so the tree
    with [README.md], [notes.md], [main.py] and [lib.rs] gets the labels
    readme, markdown, python and rust. *)
Theorem classification_precedence :
  (forall t below file,
     names_ok t = true -> seen t below file ->
     startswith file "." = false ->
     dict_get (build_file_tree (Some t)) (relpath below file)
     = spec_label file) /\
  build_file_tree (Some four_files) =
    [("README.md", "readme"); ("notes.md", "markdown");
     ("main.py", "python"); ("lib.rs", "rust")].
Proof.
  split; [| reflexivity].
  intros t below file Hok Hseen Hvis.
  pose proof (seen_slash_free Hseen Hok) as F.
  destruct (spec_label file) as [l|] eqn:Hl.
  - unfold build_file_tree, walk_top.
    apply (@walk_reaches
             (fun ft => dict_get ft (relpath below file) = Some l)
             t below file Hseen []).
    + intros ft. rewrite visit_file_label, Hvis, Hl, dict_get_set.
      simpl app. now rewrite String.eqb_refl.
    + intros below' file' ft Hseen' Hft.
      rewrite visit_file_label. simpl app.
      destruct (startswith file' "."); [exact Hft |].
      destruct (spec_label file') as [l'|] eqn:Hl'; [| exact Hft].
      rewrite dict_get_set.
      destruct (String.eqb_spec (relpath below' file') (relpath below file))
        as [E |]; [| exact Hft].
      apply relpath_inj in E;
        [| now apply seen_slash_free with t | exact F].
      destruct E as [_ ->]. congruence.
  - destruct (dict_get (build_file_tree (Some t)) (relpath below file))
      as [l|] eqn:G; [| reflexivity].
    apply build_file_tree_keys in G.
    destruct G as (below' & file' & Hseen' & _ & E & Hl').
    apply relpath_inj in E;
      [| exact F | now apply seen_slash_free with t].
    destruct E as [_ ->]. congruence.
Qed.

Lemma classification_precedence_witness :
  dict_get (build_file_tree (Some four_files)) "README.md" = Some "readme" /\
  dict_get (build_file_tree (Some four_files)) "notes.md" = Some "markdown".
Proof.
  destruct classification_precedence as [H _].
  assert (S : forall f, In f ["README.md"; "notes.md"] ->
                        seen four_files [] f).
  { intros f Hf. apply seen_here. simpl in *. tauto. }
  split.
  - apply (H four_files [] "README.md");
      [reflexivity | apply S; simpl; tauto | reflexivity].
  - apply (H four_files [] "notes.md");
      [reflexivity | apply S; simpl; tauto | reflexivity].
Defined.

(** ** The egg-info entry *)

Lemma endswith_egg_info_not_ignored d :
  endswith d ".egg-info" = true -> d <> "*.egg-info" ->
  str_in d ignore_dirs = false.
Proof.
  intros He Hne.
  destruct (str_in d ignore_dirs) eqn:E; [| reflexivity].
  unfold str_in, ignore_dirs in E. cbn [existsb] in E.
  repeat match type of E with
         | (String.eqb d ?lit || _) = true =>
             destruct (String.eqb_spec d lit) as [-> |];
             [first [ contradiction (Hne eq_refl)
                    | vm_compute in He; discriminate He ]
             | cbn [orb] in E]
         end.
  discriminate E.
Qed.

(** C10: the ignore set is compared by equality of names, so its entry
    [*.egg-info] prunes the directory of that very name and no other: a
    directory [mypkg.egg-info] is walked and its source files are in the
    result. *)
Theorem egg_info_compared_literally :
  (forall d, str_in d ignore_dirs = true <-> In d ignore_dirs) /\
  (forall d,
     endswith d ".egg-info" = true -> d <> "*.egg-info" ->
     startswith d "." = false ->
     keep_dir d = true /\
     build_file_tree (Some (Dir true [(d, Dir true [("top.py", File)])]))
     = [((d ++ "/top.py")%string, "python")]) /\
  keep_dir "*.egg-info" = false /\
  build_file_tree (Some with_egg_info) =
    [("mypkg.egg-info/top.py", "python")].
Proof.
  split; [| split; [| split; reflexivity]].
  { intros d. unfold str_in. rewrite existsb_exists. split.
    - intros (x & Hx & E). apply String.eqb_eq in E. now subst x.
    - intros H. exists d. split; [exact H | apply String.eqb_refl]. }
  intros d He Hne Hdot.
  assert (K : keep_dir d = true).
  { unfold keep_dir.
    now rewrite (endswith_egg_info_not_ignored He Hne), Hdot. }
  split; [exact K |].
  unfold build_file_tree, walk_top.
  rewrite walk_listable, walk_body_eq.
  cbn [dirnames filenames filter map is_dir snd fst negb fold_left].
  rewrite K. cbn [fold_left]. unfold enter. cbn [lookup].
  rewrite String.eqb_refl, walk_listable, walk_body_eq.
  reflexivity.
Qed.

Lemma egg_info_compared_literally_witness :
  keep_dir "mypkg.egg-info" = true /\
  build_file_tree
    (Some (Dir true [("mypkg.egg-info", Dir true [("top.py", File)])]))
  = [("mypkg.egg-info/top.py", "python")].
Proof.
  destruct egg_info_compared_literally as (_ & H & _).
  apply (H "mypkg.egg-info").
  - reflexivity.
  - discriminate.
  - reflexivity.
Defined.

(* ================================================================= *)
(** * Further properties *)

Import RepoName Files.

(** ** Splitting and joining *)

Lemma split_not_nil sep s : split sep s <> [].
Proof.
  destruct s as [|c s]; cbn [split]; [discriminate |].
  destruct (Ascii.eqb c sep); [discriminate |].
  destruct (split sep s); discriminate.
Qed.

Lemma split_parts_free sep s :
  Forall (fun part => mem sep part = false) (split sep s).
Proof.
  induction s as [|c s IH]; cbn [split].
  - constructor; [reflexivity | constructor].
  - destruct (Ascii.eqb c sep) eqn:E.
    + constructor; [reflexivity | exact IH].
    + destruct (split sep s) as [|h t]; constructor.
      * cbn [mem]. now rewrite Ascii.eqb_sym, E.
      * constructor.
      * inversion IH; subst. cbn [mem]. now rewrite Ascii.eqb_sym, E.
      * now inversion IH.
Qed.

(** Splitting distributes over a separator. *)
Lemma split_at_sep sep a b :
  split sep (a ++ String sep b) = split sep a ++ split sep b.
Proof.
  induction a as [|c a IH]; cbn [append split].
  - now rewrite Ascii.eqb_refl.
  - rewrite IH. destruct (Ascii.eqb c sep); [reflexivity |].
    pose proof (split_not_nil sep a) as N.
    destruct (split sep a); [contradiction | reflexivity].
Qed.

Lemma last_in (A : Type) (l : list A) d : l <> [] -> In (last l d) l.
Proof.
  induction l as [|x l IH]; [contradiction |]. intros _.
  destruct l as [|y l]; [now left |].
  right. apply IH. discriminate.
Qed.

Lemma last_app_nonempty (A : Type) (l l' : list A) d :
  l' <> [] -> last (l ++ l') d = last l' d.
Proof.
  intros N. induction l as [|x l IH]; [reflexivity |].
  simpl. destruct (l ++ l') eqn:E; [| exact IH].
  apply app_eq_nil in E. now destruct E.
Qed.

(** ** What [rstrip] and [endswith] do at the end of a text *)

Lemma rstrip_by_snoc p s c :
  p c = true -> rstrip_by p (s ++ String c EmptyString) = rstrip_by p s.
Proof.
  intros Hc. induction s as [|a s IH]; cbn [append rstrip_by].
  - now rewrite Hc.
  - now rewrite IH.
Qed.

Lemma rstrip_by_kept p s :
  (forall c, last_char s = Some c -> p c = false) -> rstrip_by p s = s.
Proof.
  induction s as [|a s IH]; intros H; cbn [rstrip_by]; [reflexivity |].
  rewrite IH.
  - destruct s as [|b s]; [| reflexivity].
    now rewrite (H a eq_refl).
  - intros c Hc. apply H. cbn [last_char]. now rewrite Hc.
Qed.

Lemma rstrip_by_all p s : all_chars p s = true -> rstrip_by p s = EmptyString.
Proof.
  induction s as [|a s IH]; cbn [all_chars rstrip_by]; [reflexivity |].
  intros H. apply andb_true_iff in H. destruct H as [Ha Hs].
  now rewrite (IH Hs), Ha.
Qed.

Lemma last_char_append a b :
  last_char (a ++ b) =
  match last_char b with
  | Some c => Some c
  | None => last_char a
  end.
Proof.
  induction a as [|x a IH]; cbn [append last_char].
  - now destruct (last_char b).
  - rewrite IH. destruct (last_char b); [reflexivity |].
    now destruct (last_char a).
Qed.

Lemma endswith_append a p : endswith (a ++ p) p = true.
Proof.
  induction a as [|x a IH]; cbn [append].
  - destruct p; cbn [endswith]; now rewrite String.eqb_refl.
  - cbn [endswith]. rewrite IH. apply orb_true_r.
Qed.

Lemma substring_0_append a b :
  substring 0 (String.length a) (a ++ b) = a.
Proof.
  induction a as [|x a IH]; cbn [append String.length substring].
  - now destruct b.
  - now rewrite IH.
Qed.

Lemma drop_last_append a p :
  drop_last (String.length p) (a ++ p) = a.
Proof.
  unfold drop_last. rewrite length_append.
  replace (String.length a + String.length p - String.length p)
    with (String.length a) by lia.
  apply substring_0_append.
Qed.

(** A text that ends with a separator-free text after a separator ends
    with no more than that text. *)
Lemma endswith_after_slash a b p :
  slash_free p -> endswith (a ++ String slash b) p = endswith b p.
Proof.
  intros F.
  assert (N : forall x, String.eqb (x ++ String slash b) p = false).
  { intros x. apply String.eqb_neq. intros E. unfold slash_free in F.
    rewrite <- E, mem_append in F. cbn [mem] in F.
    rewrite Ascii.eqb_refl, orb_true_r in F. discriminate F. }
  induction a as [|x a IH]; cbn [append endswith].
  - pose proof (N EmptyString) as N0. cbn [append] in N0. now rewrite N0.
  - pose proof (N (String x a)) as N1. cbn [append] in N1.
    now rewrite N1, IH.
Qed.

Lemma last_char_mem s c : last_char s = Some c -> mem c s = true.
Proof.
  induction s as [|a s IH]; cbn [last_char mem]; [discriminate |].
  destruct (last_char s) as [d|].
  - intros E. rewrite (IH E). apply orb_true_r.
  - intros [= ->]. now rewrite Ascii.eqb_refl.
Qed.

Lemma last_or_unknown_split s :
  last_or_unknown (split slash s) = last (split slash s) EmptyString.
Proof.
  pose proof (split_not_nil slash s) as N.
  destruct (split slash s); [contradiction | reflexivity].
Qed.

(** ** extract_repo_name *)

(** X1: the name is one path component: it holds no separator. *)
Theorem repo_name_has_no_slash repo_url :
  mem slash (extract_repo_name repo_url) = false.
Proof.
  unfold extract_repo_name. cbv zeta. rewrite last_or_unknown_split.
  pose proof (split_parts_free slash
                (if endswith (rstrip_chars "/" repo_url) ".git"
                 then drop_last 4 (rstrip_chars "/" repo_url)
                 else rstrip_chars "/" repo_url)) as F.
  rewrite Forall_forall in F. apply F.
  apply last_in, split_not_nil.
Qed.

(** X2: separators at the end of the URL change nothing. *)
Theorem repo_name_ignores_trailing_slash repo_url :
  extract_repo_name (repo_url ++ "/") = extract_repo_name repo_url.
Proof.
  unfold extract_repo_name, rstrip_chars.
  now rewrite rstrip_by_snoc by reflexivity.
Qed.

Lemma last_component base name :
  mem slash name = false ->
  last (split slash (base ++ String slash name)) EmptyString = name.
Proof.
  intros F. rewrite split_at_sep, last_app_nonempty by apply split_not_nil.
  now rewrite split_slash_free.
Qed.

Lemma extract_name_of_git_url base name :
  mem slash name = false ->
  extract_repo_name (base ++ "/" ++ name ++ ".git") = name.
Proof.
  intros F. unfold extract_repo_name, rstrip_chars. cbv zeta.
  replace (base ++ "/" ++ name ++ ".git")%string
    with ((base ++ String slash name) ++ ".git")%string
    by (rewrite append_assoc; reflexivity).
  rewrite rstrip_by_kept.
  - rewrite endswith_append.
    change 4 with (String.length ".git"). rewrite drop_last_append.
    rewrite last_or_unknown_split. now apply last_component.
  - intros c. rewrite last_char_append. cbn [last_char].
    intros [= <-]. reflexivity.
Qed.

Lemma extract_name_of_plain_url base name :
  mem slash name = false ->
  name <> EmptyString -> endswith name ".git" = false ->
  extract_repo_name (base ++ "/" ++ name) = name.
Proof.
  intros F Hne Hgit. unfold extract_repo_name, rstrip_chars. cbv zeta.
  change (base ++ "/" ++ name)%string with (base ++ String slash name)%string.
  rewrite rstrip_by_kept.
  - rewrite endswith_after_slash by reflexivity. rewrite Hgit.
    rewrite last_or_unknown_split. now apply last_component.
  - intros c. rewrite last_char_append. cbn [last_char].
    destruct (last_char name) as [d|] eqn:E.
    + intros [= <-]. apply last_char_mem in E. cbn [mem].
      destruct (Ascii.eqb d "/") eqn:Ed; [| reflexivity].
      apply Ascii.eqb_eq in Ed. subst d. unfold slash in F. congruence.
    + destruct name as [|a rest]; [contradiction | cbn [last_char] in E].
      destruct (last_char rest); discriminate E.
Qed.

(** X3: the name of a URL is what follows its last separator, without one
    final [.git]. *)
Theorem repo_name_of_url base name :
  mem slash name = false ->
  extract_repo_name (base ++ "/" ++ name ++ ".git") = name /\
  (name <> EmptyString -> endswith name ".git" = false ->
   extract_repo_name (base ++ "/" ++ name) = name).
Proof.
  intros F. split.
  - now apply extract_name_of_git_url.
  - now apply extract_name_of_plain_url.
Qed.

Lemma repo_name_of_url_witness :
  extract_repo_name "https://github.com/user/repo.git" = "repo" /\
  ("repo" <> EmptyString -> endswith "repo" ".git" = false ->
   extract_repo_name "https://github.com/user/repo" = "repo").
Proof.
  apply (@repo_name_of_url "https://github.com/user" "repo").
  reflexivity.
Defined.

(** X4: a URL of separators only, the empty URL among them, gives the empty
    name: the [unknown-repo] of the last line is not what it gets. *)
Theorem repo_name_of_slashes repo_url :
  all_chars (fun c => Ascii.eqb c slash) repo_url = true ->
  extract_repo_name repo_url = EmptyString.
Proof.
  intros H. unfold extract_repo_name, rstrip_chars.
  rewrite rstrip_by_all; [reflexivity |].
  clear -H. induction repo_url as [|c s IH]; cbn [all_chars] in *;
    [reflexivity |].
  apply andb_true_iff in H. destruct H as [Hc Hs].
  rewrite (IH Hs), andb_true_r.
  change (mem c "/") with (Ascii.eqb c slash || false). now rewrite Hc.
Qed.

Lemma repo_name_of_slashes_witness :
  extract_repo_name "//" = EmptyString.
Proof.
  apply (@repo_name_of_slashes "//"). reflexivity.
Defined.

(** ** The name clone_repo gives the clone *)

Lemma replace_from_dot_free new a rest :
  dot_free a ->
  replace_from ".git" new (a ++ rest) 0
  = (a ++ replace_from ".git" new rest 0)%string.
Proof.
  unfold dot_free. induction a as [|c a IH]; intros F; [reflexivity |].
  cbn [mem] in F. apply orb_false_iff in F. destruct F as [Fc Fa].
  cbn [append replace_from String.prefix].
  destruct (ascii_dec "." c) as [<- | _].
  - unfold dot in Fc. rewrite Ascii.eqb_refl in Fc. discriminate Fc.
  - now rewrite (IH Fa).
Qed.

Lemma replace_from_git rest :
  replace_from ".git" EmptyString (".git" ++ rest) 0
  = replace_from ".git" EmptyString rest 0.
Proof. destruct rest; reflexivity. Qed.

(** X5: a URL that ends with a separator gives the clone no name, so the path
    of the clone is the output directory itself with a separator added. *)
Theorem clone_name_after_trailing_slash repo_url output_dir :
  output_dir <> EmptyString -> endswith output_dir "/" = false ->
  clone_repo_name (repo_url ++ "/") = EmptyString /\
  clone_target_path (repo_url ++ "/") output_dir = (output_dir ++ "/")%string.
Proof.
  intros Hne Hend.
  assert (N : clone_repo_name (repo_url ++ "/") = EmptyString).
  { unfold clone_repo_name.
    change (repo_url ++ "/")%string
      with (repo_url ++ String slash EmptyString)%string.
    now rewrite last_component. }
  split; [exact N |].
  unfold clone_target_path, path_join. rewrite N, Hend.
  apply String.eqb_neq in Hne. rewrite Hne. reflexivity.
Qed.

Lemma clone_name_after_trailing_slash_witness :
  clone_repo_name "https://github.com/user/repo/" = EmptyString /\
  clone_target_path "https://github.com/user/repo/" "cloned_repos"
  = "cloned_repos/".
Proof.
  apply (@clone_name_after_trailing_slash
           "https://github.com/user/repo" "cloned_repos").
  - discriminate.
  - reflexivity.
Defined.

Lemma clone_name_replace base a b :
  mem slash a = false -> mem slash b = false -> mem dot a = false ->
  clone_repo_name (base ++ "/" ++ a ++ ".git" ++ b)
  = (a ++ replace ".git" EmptyString b)%string.
Proof.
  intros Sa Sb Da. unfold clone_repo_name.
  change (base ++ "/" ++ a ++ ".git" ++ b)%string
    with (base ++ String slash (a ++ ".git" ++ b))%string.
  rewrite last_component.
  - unfold replace.
    now rewrite (replace_from_dot_free _ _ Da), replace_from_git.
  - rewrite !mem_append, Sa, Sb. reflexivity.
Qed.

Lemma replace_dot_free b :
  mem dot b = false -> replace ".git" EmptyString b = b.
Proof.
  intros Db. unfold replace. rewrite <- (append_nil_r b) at 1.
  rewrite (replace_from_dot_free _ _ Db). apply append_nil_r.
Qed.

(** X6: [.git] is taken out of the last component wherever it stands, not
    only at its end: after a part without dots the first [.git] goes, and
    so do the later ones. *)
Theorem clone_name_drops_inner_git base a b :
  mem slash a = false -> mem slash b = false -> mem dot a = false ->
  clone_repo_name (base ++ "/" ++ a ++ ".git" ++ b)
  = (a ++ replace ".git" EmptyString b)%string /\
  (mem dot b = false ->
   clone_repo_name (base ++ "/" ++ a ++ ".git" ++ b) = (a ++ b)%string).
Proof.
  intros Sa Sb Da. split; [now apply clone_name_replace |].
  intros Db. rewrite clone_name_replace by assumption.
  now rewrite replace_dot_free.
Qed.

Lemma clone_name_drops_inner_git_witness :
  clone_repo_name "https://github.com/user/user.github.io" = "userhub.io".
Proof.
  destruct (@clone_name_drops_inner_git "https://github.com/user"
              "user" "hub.io" eq_refl eq_refl eq_refl) as [H _].
  exact H.
Defined.

(** X7: on a URL whose last component is a name without dots followed by
    [.git], the two functions give the same name. *)
Theorem repo_names_agree base name :
  mem slash name = false -> mem dot name = false ->
  clone_repo_name (base ++ "/" ++ name ++ ".git") = name /\
  extract_repo_name (base ++ "/" ++ name ++ ".git") = name.
Proof.
  intros S D. split; [| now apply extract_name_of_git_url].
  pose proof (@clone_name_replace base name EmptyString S eq_refl D) as H.
  now rewrite !append_nil_r in H.
Qed.

Lemma repo_names_agree_witness :
  clone_repo_name "https://github.com/user/repo.git" = "repo" /\
  extract_repo_name "https://github.com/user/repo.git" = "repo".
Proof.
  apply (@repo_names_agree "https://github.com/user" "repo"); reflexivity.
Defined.

(** ** Greedy repetition *)

(** No character is both whitespace and a word character. *)
Lemma space_not_word c : is_space c = true -> is_word c = false.
Proof.
  destruct c as [[] [] [] [] [] [] [] []]; vm_compute;
    intros H; first [reflexivity | discriminate H].
Qed.

Lemma substring_middle a b c :
  substring (String.length a) (String.length b) (a ++ b ++ c) = b.
Proof.
  induction a as [|x a IH]; cbn [append String.length substring].
  - apply substring_0_append.
  - exact IH.
Qed.

Section Greedy.

Variable k : charset.
Variable cont : option ascii -> nat -> string -> option match_obj.

(** A match through a repetition read some run of the class. *)
Lemma greedy_some s : forall prev pos m,
  greedy k cont prev pos s = Some m ->
  exists run rest,
    s = (run ++ rest)%string /\ all_chars (in_set k) run = true /\
    cont (prev_after prev run) (pos + String.length run) rest = Some m.
Proof.
  induction s as [|a s IH]; intros prev pos m H; cbn [greedy] in H.
  - exists EmptyString, EmptyString. cbn. now rewrite Nat.add_0_r.
  - assert (Stay : cont prev pos (String a s) = Some m ->
                   exists run rest,
                     String a s = (run ++ rest)%string /\
                     all_chars (in_set k) run = true /\
                     cont (prev_after prev run) (pos + String.length run) rest
                     = Some m).
    { intros C. exists EmptyString, (String a s). cbn.
      now rewrite Nat.add_0_r. }
    destruct (in_set k a) eqn:K; [| now apply Stay].
    destruct (greedy k cont (Some a) (S pos) s) as [m'|] eqn:G;
      [| now apply Stay].
    injection H as ->.
    destruct (IH _ _ _ G) as (run & rest & -> & A & C).
    exists (String a run), rest. cbn [append all_chars String.length].
    rewrite K, A, prev_after_cons, Nat.add_succ_r. auto.
Qed.

(** The longest run is tried first: when the match goes on after it, that
    is the match. *)
Lemma greedy_longest run : forall rest prev pos m,
  all_chars (in_set k) run = true ->
  (forall c, first_char rest = Some c -> in_set k c = false) ->
  cont (prev_after prev run) (pos + String.length run) rest = Some m ->
  greedy k cont prev pos (run ++ rest) = Some m.
Proof.
  induction run as [|a run IH]; intros rest prev pos m A F C.
  - cbn in C. rewrite Nat.add_0_r in C. cbn [append].
    destruct rest as [|b rest]; cbn [greedy]; [exact C |].
    now rewrite (F b eq_refl).
  - cbn [all_chars] in A. apply andb_true_iff in A. destruct A as [Ka A].
    cbn [append greedy]. rewrite Ka.
    rewrite (IH rest (Some a) (S pos) m A F); [reflexivity |].
    rewrite prev_after_cons in C. cbn [String.length] in C.
    now rewrite Nat.add_succ_r in C.
Qed.

(** When the rest of the pattern matches anywhere, the run read is the
    longest. *)
Lemma greedy_total_longest s : forall prev pos m,
  (forall prev pos s, cont prev pos s <> None) ->
  greedy k cont prev pos s = Some m ->
  exists run rest,
    s = (run ++ rest)%string /\ all_chars (in_set k) run = true /\
    (forall c, first_char rest = Some c -> in_set k c = false) /\
    cont (prev_after prev run) (pos + String.length run) rest = Some m.
Proof.
  intros prev pos m T. revert prev pos m.
  assert (Total : forall s prev pos, greedy k cont prev pos s <> None).
  { clear s. induction s as [|a s IH]; intros prev pos; cbn [greedy];
      [apply T |].
    destruct (in_set k a); [| apply T].
    destruct (greedy k cont (Some a) (S pos) s) eqn:G; [discriminate |].
    now destruct (IH (Some a) (S pos)). }
  induction s as [|a s IH]; intros prev pos m H; cbn [greedy] in H.
  - exists EmptyString, EmptyString. cbn. rewrite Nat.add_0_r.
    repeat split; auto. discriminate.
  - destruct (in_set k a) eqn:K.
    + destruct (greedy k cont (Some a) (S pos) s) as [m'|] eqn:G;
        [| now destruct (Total s (Some a) (S pos))].
      injection H as ->.
      destruct (IH _ _ _ G) as (run & rest & -> & A & F & C).
      exists (String a run), rest. cbn [append all_chars String.length].
      rewrite K, A, prev_after_cons, Nat.add_succ_r. auto.
    + exists EmptyString, (String a s). cbn. rewrite Nat.add_0_r.
      repeat split; auto. now intros c [= <-].
Qed.

End Greedy.

Section Repetitions.

Variables (k : charset) (p : pattern).

Lemma exec_plus_some prev pos s gs ge m :
  exec (Plus k :: p) prev pos s gs ge = Some m ->
  exists run rest,
    s = (run ++ rest)%string /\ run <> EmptyString /\
    all_chars (in_set k) run = true /\
    exec p (prev_after prev run) (pos + String.length run) rest gs ge
    = Some m.
Proof.
  cbn [exec]. destruct s as [|a s]; [discriminate |].
  destruct (in_set k a) eqn:K; [| discriminate].
  intros H. apply greedy_some in H.
  destruct H as (run & rest & -> & A & C).
  exists (String a run), rest. cbn [append all_chars String.length].
  rewrite K, A, prev_after_cons, Nat.add_succ_r.
  repeat split; auto. discriminate.
Qed.

Lemma exec_plus_longest run rest prev pos gs ge m :
  run <> EmptyString -> all_chars (in_set k) run = true ->
  (forall c, first_char rest = Some c -> in_set k c = false) ->
  exec p (prev_after prev run) (pos + String.length run) rest gs ge
  = Some m ->
  exec (Plus k :: p) prev pos (run ++ rest) gs ge = Some m.
Proof.
  intros N A F C. destruct run as [|a run]; [contradiction |].
  cbn [all_chars] in A. apply andb_true_iff in A. destruct A as [Ka A].
  cbn [append exec]. rewrite Ka.
  apply greedy_longest; auto.
  rewrite prev_after_cons in C. cbn [String.length] in C.
  now rewrite Nat.add_succ_r in C.
Qed.

Lemma exec_star_some prev pos s gs ge m :
  exec (Star k :: p) prev pos s gs ge = Some m ->
  exists run rest,
    s = (run ++ rest)%string /\ all_chars (in_set k) run = true /\
    exec p (prev_after prev run) (pos + String.length run) rest gs ge
    = Some m.
Proof. cbn [exec]. apply greedy_some. Qed.

Lemma exec_star_longest run rest prev pos gs ge m :
  all_chars (in_set k) run = true ->
  (forall c, first_char rest = Some c -> in_set k c = false) ->
  exec p (prev_after prev run) (pos + String.length run) rest gs ge
  = Some m ->
  exec (Star k :: p) prev pos (run ++ rest) gs ge = Some m.
Proof. intros A F C. cbn [exec]. now apply greedy_longest. Qed.

End Repetitions.

(** ** What the two declaration patterns match *)

Lemma exec_bol p prev s gs ge :
  exec (Bol :: p) prev 0 s gs ge = exec p prev 0 s gs ge.
Proof. reflexivity. Qed.

Lemma exec_group_open p prev pos s gs ge :
  exec (GroupOpen :: p) prev pos s gs ge = exec p prev pos s pos ge.
Proof. reflexivity. Qed.

Lemma exec_group_close p prev pos s gs ge :
  exec (GroupClose :: p) prev pos s gs ge = exec p prev pos s gs pos.
Proof. reflexivity. Qed.

Lemma exec_lparen prev pos s gs ge m :
  exec [Lit lparen] prev pos s gs ge = Some m <->
  exists rest, s = String lparen rest /\ m = MatchObj (S pos) gs ge.
Proof.
  cbn [exec]. destruct s as [|a s].
  - split; [discriminate | intros (rest & E & _); discriminate E].
  - destruct (Ascii.eqb_spec a lparen) as [-> | N]; split.
    + intros [= <-]. now exists s.
    + intros (rest & _ & ->). reflexivity.
    + discriminate.
    + intros (rest & [= E _] & _). contradiction.
Qed.

Lemma func_match_shape ln m :
  re_match func_pattern ln = Some m ->
  exists ws nm ws' rest,
    ln = ("def" ++ ws ++ nm ++ ws' ++ String lparen rest)%string /\
    ws <> EmptyString /\ all_chars is_space ws = true /\
    nm <> EmptyString /\ all_chars is_word nm = true /\
    all_chars is_space ws' = true /\
    group1 ln m = nm.
Proof.
  unfold re_match.
  change func_pattern
    with (Bol :: ops "def" ++ [Plus Space; GroupOpen; Plus Word; GroupClose;
                               Star Space; Lit lparen]).
  rewrite exec_bol. intros H.
  apply exec_ops in H. destruct H as (kw & s1 & -> & A & H).
  apply (@agrees_plain "def" kw eq_refl) in A. subst kw.
  apply exec_plus_some in H. destruct H as (ws & s2 & -> & Nws & Aws & H).
  rewrite exec_group_open in H.
  apply exec_plus_some in H. destruct H as (nm & s3 & -> & Nnm & Anm & H).
  rewrite exec_group_close in H.
  apply exec_star_some in H. destruct H as (ws' & s4 & -> & Aws' & H).
  apply exec_lparen in H. destruct H as (rest & -> & ->).
  exists ws, nm, ws', rest. repeat split; auto.
  unfold group1. cbn [g_start g_end].
  replace (0 + String.length "def" + String.length ws + String.length nm
           - (0 + String.length "def" + String.length ws))
    with (String.length nm) by lia.
  replace (0 + String.length "def" + String.length ws)
    with (String.length ("def" ++ ws)) by (rewrite length_append; lia).
  rewrite <- (append_assoc "def" ws). apply substring_middle.
Qed.

Lemma word_not_space c : is_word c = true -> is_space c = false.
Proof.
  intros W. destruct (is_space c) eqn:S; [| reflexivity].
  apply space_not_word in S. congruence.
Qed.

Lemma first_char_append a b :
  first_char (a ++ b) =
  match first_char a with
  | Some c => Some c
  | None => first_char b
  end.
Proof. destruct a; reflexivity. Qed.

Lemma all_chars_first p s c :
  all_chars p s = true -> first_char s = Some c -> p c = true.
Proof.
  destruct s as [|a s]; [discriminate |]. cbn.
  intros H [= <-]. apply andb_true_iff in H. tauto.
Qed.

Lemma func_match_complete ws nm ws' rest :
  ws <> EmptyString -> all_chars is_space ws = true ->
  nm <> EmptyString -> all_chars is_word nm = true ->
  all_chars is_space ws' = true ->
  exists m,
    re_match func_pattern
      ("def" ++ ws ++ nm ++ ws' ++ String lparen rest) = Some m /\
    group1 ("def" ++ ws ++ nm ++ ws' ++ String lparen rest) m = nm.
Proof.
  intros Nws Aws Nnm Anm Aws'.
  exists (MatchObj
            (S (0 + String.length "def" + String.length ws
                + String.length nm + String.length ws'))
            (0 + String.length "def" + String.length ws)
            (0 + String.length "def" + String.length ws + String.length nm)).
  split.
  - unfold re_match.
    change func_pattern
      with (Bol :: ops "def" ++ [Plus Space; GroupOpen; Plus Word; GroupClose;
                                 Star Space; Lit lparen]).
    rewrite exec_bol. apply exec_ops.
    exists "def", (ws ++ nm ++ ws' ++ String lparen rest)%string.
    split; [reflexivity | split; [reflexivity |]].
    apply exec_plus_longest; auto.
    { intros c Hc. rewrite first_char_append in Hc.
      destruct nm as [|b nm]; [contradiction |]. cbn in Hc.
      injection Hc as <-. apply word_not_space.
      cbn in Anm. apply andb_true_iff in Anm. tauto. }
    rewrite exec_group_open. apply exec_plus_longest; auto.
    { intros c Hc. rewrite first_char_append in Hc.
      destruct (first_char ws') as [d|] eqn:F.
      - injection Hc as <-. apply space_not_word.
        exact (all_chars_first _ _ Aws' F).
      - cbn in Hc. now injection Hc as <-. }
    rewrite exec_group_close.
    apply exec_star_longest;
      [exact Aws' | intros c [= <-]; reflexivity |].
    apply exec_lparen. now exists rest.
  - unfold group1. cbn [g_start g_end].
    replace (0 + String.length "def" + String.length ws + String.length nm
             - (0 + String.length "def" + String.length ws))
      with (String.length nm) by lia.
    replace (0 + String.length "def" + String.length ws)
      with (String.length ("def" ++ ws)) by (rewrite length_append; lia).
    rewrite <- (append_assoc "def" ws). apply substring_middle.
Qed.

Lemma exec_name_close prev pos s gs ge m :
  exec [Plus Word; GroupClose] prev pos s gs ge = Some m ->
  exists run rest,
    s = (run ++ rest)%string /\ run <> EmptyString /\
    all_chars is_word run = true /\
    (forall c, first_char rest = Some c -> is_word c = false) /\
    m = MatchObj (pos + String.length run) gs (pos + String.length run).
Proof.
  cbn [exec]. destruct s as [|a s]; [discriminate |].
  destruct (in_set Word a) eqn:K; [| discriminate].
  intros H. apply greedy_total_longest in H; [| discriminate].
  destruct H as (run & rest & -> & A & F & [= <-]).
  exists (String a run), rest.
  cbn [append all_chars String.length]. cbn [in_set] in K.
  rewrite K, Nat.add_succ_r. repeat split; auto. discriminate.
Qed.

Lemma class_match_shape ln m :
  re_match class_pattern ln = Some m ->
  exists ws nm rest,
    ln = ("class" ++ ws ++ nm ++ rest)%string /\
    ws <> EmptyString /\ all_chars is_space ws = true /\
    nm <> EmptyString /\ all_chars is_word nm = true /\
    (forall c, first_char rest = Some c -> is_word c = false) /\
    group1 ln m = nm.
Proof.
  unfold re_match.
  change class_pattern
    with (Bol :: ops "class" ++ [Plus Space; GroupOpen; Plus Word; GroupClose]).
  rewrite exec_bol. intros H.
  apply exec_ops in H. destruct H as (kw & s1 & -> & A & H).
  apply (@agrees_plain "class" kw eq_refl) in A. subst kw.
  apply exec_plus_some in H. destruct H as (ws & s2 & -> & Nws & Aws & H).
  rewrite exec_group_open in H.
  apply exec_name_close in H.
  destruct H as (nm & rest & -> & Nnm & Anm & F & ->).
  exists ws, nm, rest. repeat split; auto.
  unfold group1. cbn [g_start g_end].
  replace (0 + String.length "class" + String.length ws + String.length nm
           - (0 + String.length "class" + String.length ws))
    with (String.length nm) by lia.
  replace (0 + String.length "class" + String.length ws)
    with (String.length ("class" ++ ws)) by (rewrite length_append; lia).
  rewrite <- (append_assoc "class" ws). apply substring_middle.
Qed.

Lemma class_match_complete ws nm rest :
  ws <> EmptyString -> all_chars is_space ws = true ->
  nm <> EmptyString -> all_chars is_word nm = true ->
  (forall c, first_char rest = Some c -> is_word c = false) ->
  exists m,
    re_match class_pattern ("class" ++ ws ++ nm ++ rest) = Some m /\
    group1 ("class" ++ ws ++ nm ++ rest) m = nm.
Proof.
  intros Nws Aws Nnm Anm F.
  exists (MatchObj
            (0 + String.length "class" + String.length ws + String.length nm)
            (0 + String.length "class" + String.length ws)
            (0 + String.length "class" + String.length ws + String.length nm)).
  split.
  - unfold re_match.
    change class_pattern
      with (Bol :: ops "class"
              ++ [Plus Space; GroupOpen; Plus Word; GroupClose]).
    rewrite exec_bol. apply exec_ops.
    exists "class", (ws ++ nm ++ rest)%string.
    split; [reflexivity | split; [reflexivity |]].
    apply exec_plus_longest; [exact Nws | exact Aws | |].
    { intros c Hc. rewrite first_char_append in Hc.
      destruct nm as [|b nm]; [contradiction |]. cbn in Hc.
      injection Hc as <-. apply word_not_space.
      cbn in Anm. apply andb_true_iff in Anm. tauto. }
    rewrite exec_group_open.
    apply exec_plus_longest; [exact Nnm | exact Anm | exact F |].
    reflexivity.
  - unfold group1. cbn [g_start g_end].
    replace (0 + String.length "class" + String.length ws + String.length nm
             - (0 + String.length "class" + String.length ws))
      with (String.length nm) by lia.
    replace (0 + String.length "class" + String.length ws)
      with (String.length ("class" ++ ws)) by (rewrite length_append; lia).
    rewrite <- (append_assoc "class" ws). apply substring_middle.
Qed.

(** ** The records of simple_parse_python *)

(** X8: the function records are exactly these: one for each line that is
    [def], whitespace, a name of word characters, optional whitespace and
    an opening parenthesis, from column 0; it carries that name, the
    number of the line and the docstring found on the next line. *)
Theorem function_records content r :
  In r (functions (simple_parse_python content)) <->
  exists i ws nm ws' rest,
    nth_error (split newline content) i
    = Some ("def" ++ ws ++ nm ++ ws' ++ String lparen rest)%string /\
    ws <> EmptyString /\ all_chars is_space ws = true /\
    nm <> EmptyString /\ all_chars is_word nm = true /\
    all_chars is_space ws' = true /\
    r = Decl nm (i + 1) (try_docstring (split newline content) i) "function".
Proof.
  split.
  - intros H. apply functions_inv in H. destruct H as (i & ln & m & Hn & Hm & ->).
    destruct (@func_match_shape ln m Hm)
      as (ws & nm & ws' & rest & -> & ? & ? & ? & ? & ? & G).
    exists i, ws, nm, ws', rest. rewrite G. repeat split; auto.
  - intros (i & ws & nm & ws' & rest & Hn & Nws & Aws & Nnm & Anm & Aws' & ->).
    destruct (@func_match_complete ws nm ws' rest Nws Aws Nnm Anm Aws')
      as (m & Hm & G).
    unfold simple_parse_python. apply parse_loop_functions_in. right.
    exists i, ("def" ++ ws ++ nm ++ ws' ++ String lparen rest)%string.
    split; [exact Hn |]. unfold func_at. rewrite Hm, G. now left.
Qed.

(** X9: the class records are exactly these: one for each line that is
    [class], whitespace and a name of word characters, from column 0, the
    name being all the word characters there are; whatever follows the
    name is not looked at. *)
Theorem class_records content r :
  In r (classes (simple_parse_python content)) <->
  exists i ws nm rest,
    nth_error (split newline content) i
    = Some ("class" ++ ws ++ nm ++ rest)%string /\
    ws <> EmptyString /\ all_chars is_space ws = true /\
    nm <> EmptyString /\ all_chars is_word nm = true /\
    (forall c, first_char rest = Some c -> is_word c = false) /\
    r = Decl nm (i + 1) (try_docstring (split newline content) i) "class".
Proof.
  split.
  - intros H. apply classes_inv in H. destruct H as (i & ln & m & Hn & Hm & ->).
    destruct (@class_match_shape ln m Hm)
      as (ws & nm & rest & -> & ? & ? & ? & ? & ? & G).
    exists i, ws, nm, rest. rewrite G. repeat split; auto.
  - intros (i & ws & nm & rest & Hn & Nws & Aws & Nnm & Anm & F & ->).
    destruct (@class_match_complete ws nm rest Nws Aws Nnm Anm F)
      as (m & Hm & G).
    unfold simple_parse_python. apply parse_loop_classes_in. right.
    exists i, ("class" ++ ws ++ nm ++ rest)%string.
    split; [exact Hn |]. unfold class_at. rewrite Hm, G. now left.
Qed.

Section RecordOrder.

Variable lines : list string.

Lemma parse_loop_functions_app rest : forall i acc,
  functions (parse_loop lines rest i acc)
  = functions acc ++ functions (parse_loop lines rest i (ParseResult [] [])).
Proof.
  induction rest as [|ln rest IH]; intros i acc; cbn [parse_loop].
  - cbn. now rewrite app_nil_r.
  - rewrite IH, (IH _ (parse_line lines i ln (ParseResult [] []))).
    rewrite !parse_line_functions. cbn [functions app].
    symmetry. apply app_assoc.
Qed.

Lemma parse_loop_classes_app rest : forall i acc,
  classes (parse_loop lines rest i acc)
  = classes acc ++ classes (parse_loop lines rest i (ParseResult [] [])).
Proof.
  induction rest as [|ln rest IH]; intros i acc; cbn [parse_loop].
  - cbn. now rewrite app_nil_r.
  - rewrite IH, (IH _ (parse_line lines i ln (ParseResult [] []))).
    rewrite !parse_line_classes. cbn [classes app].
    symmetry. apply app_assoc.
Qed.

Lemma parse_loop_functions_sorted rest : forall i,
  StronglySorted (fun a b => line a < line b)
    (functions (parse_loop lines rest i (ParseResult [] []))).
Proof.
  induction rest as [|ln rest IH]; intros i; cbn [parse_loop];
    [constructor |].
  rewrite parse_loop_functions_app, parse_line_functions.
  cbn [functions app]. unfold func_at.
  destruct (re_match func_pattern ln); cbn [app]; [| apply IH].
  constructor; [apply IH |].
  apply Forall_forall. intros r H. apply parse_loop_functions_in in H.
  destruct H as [[] | (j & l & _ & H)]. unfold func_at in H.
  destruct (re_match func_pattern l); [| destruct H].
  destruct H as [<- | []]. cbn. lia.
Qed.

Lemma parse_loop_classes_sorted rest : forall i,
  StronglySorted (fun a b => line a < line b)
    (classes (parse_loop lines rest i (ParseResult [] []))).
Proof.
  induction rest as [|ln rest IH]; intros i; cbn [parse_loop];
    [constructor |].
  rewrite parse_loop_classes_app, parse_line_classes.
  cbn [classes app]. unfold class_at.
  destruct (re_match class_pattern ln); cbn [app]; [| apply IH].
  constructor; [apply IH |].
  apply Forall_forall. intros r H. apply parse_loop_classes_in in H.
  destruct H as [[] | (j & l & _ & H)]. unfold class_at in H.
  destruct (re_match class_pattern l); [| destruct H].
  destruct H as [<- | []]. cbn. lia.
Qed.

End RecordOrder.

(** X10: each list is in file order, with at most one record for a line, and
    every line number is one of the text: from 1 to the number of lines. *)
Theorem records_in_file_order content :
  StronglySorted (fun a b => line a < line b)
    (functions (simple_parse_python content)) /\
  StronglySorted (fun a b => line a < line b)
    (classes (simple_parse_python content)) /\
  forall r,
    In r (functions (simple_parse_python content)) \/
    In r (classes (simple_parse_python content)) ->
    1 <= line r <= List.length (split newline content).
Proof.
  split; [apply parse_loop_functions_sorted |].
  split; [apply parse_loop_classes_sorted |].
  intros r [H | H];
    [apply functions_inv in H | apply classes_inv in H];
    destruct H as (i & ln & m & Hn & _ & ->); cbn [line];
    assert (i < List.length (split newline content))
      by (apply nth_error_Some; congruence); lia.
Qed.

(** X11: no line gives a record to both lists. *)
Theorem no_line_in_both_lists content f c :
  In f (functions (simple_parse_python content)) ->
  In c (classes (simple_parse_python content)) ->
  line f <> line c.
Proof.
  intros Hf Hc E.
  apply functions_inv in Hf. destruct Hf as (i & ln & m & Hn & Hm & ->).
  apply classes_inv in Hc. destruct Hc as (j & ln' & m' & Hn' & Hm' & ->).
  cbn [line] in E. assert (j = i) by lia. subst j.
  rewrite Hn in Hn'. injection Hn' as <-.
  apply func_pattern_prefix in Hm. apply class_pattern_prefix in Hm'.
  destruct ln as [|a ln]; [discriminate Hm |].
  apply startswith_head in Hm. apply startswith_head in Hm'. congruence.
Qed.

Lemma no_line_in_both_lists_witness :
  line (Decl "run" 3 EmptyString "function")
  <> line (Decl "A" 1 EmptyString "class").
Proof.
  apply (@no_line_in_both_lists
           ("class A:" ++ nl ++ "    pass" ++ nl ++ "def run():")%string).
  - vm_compute. left. reflexivity.
  - vm_compute. left. reflexivity.
Defined.

(** ** The lines find_function_calls reports *)






(** ** More on the result of build_file_tree *)

(** X14: no component of a key starts with a dot: hidden files are left out
    as hidden directories are, at every depth. *)
Theorem keys_without_hidden_parts t path label part :
  names_ok t = true ->
  dict_get (build_file_tree (Some t)) path = Some label ->
  In part (split slash path) ->
  startswith part "." = false.
Proof.
  intros Hok Hget Hpart.
  apply build_file_tree_keys in Hget.
  destruct Hget as (below & file & Hseen & Hvis & -> & _).
  rewrite split_relpath in Hpart by now apply seen_slash_free with t.
  apply in_app_iff in Hpart. destruct Hpart as [Hb | [<- | []]]; [| exact Hvis].
  pose proof (seen_kept Hseen) as K. rewrite Forall_forall in K.
  specialize (K part Hb). unfold keep_dir in K.
  apply andb_true_iff in K. destruct K as [_ K]. now apply negb_true_iff.
Qed.

Lemma keys_without_hidden_parts_witness :
  startswith "app.ts" "." = false.
Proof.
  apply (@keys_without_hidden_parts with_node_modules
           "src/app.ts" "typescript" "app.ts").
  - reflexivity.
  - reflexivity.
  - cbn. right. left. reflexivity.
Defined.

Lemma dict_get_in d k v : dict_get d k = Some v -> In v (map snd d).
Proof.
  induction d as [|[k' v'] d IH]; cbn; [discriminate |].
  destruct (String.eqb k' k); [intros [= ->]; now left |].
  intros H. right. now apply IH.
Qed.

(** X15: a label is the language of an extension of the table, [readme] or
    [markdown], and it is decided by the last component of the key alone. *)
Theorem labels_from_file_name t path label :
  names_ok t = true ->
  dict_get (build_file_tree (Some t)) path = Some label ->
  spec_label (last (split slash path) EmptyString) = Some label /\
  (In label (map snd code_extensions) \/
   label = "readme" \/ label = "markdown").
Proof.
  intros Hok Hget.
  apply build_file_tree_keys in Hget.
  destruct Hget as (below & file & Hseen & _ & -> & Hl).
  rewrite split_relpath by now apply seen_slash_free with t.
  rewrite last_last. split; [exact Hl |].
  unfold spec_label in Hl. cbv zeta in Hl.
  destruct (dict_get code_extensions (snd (splitext file))) as [l|] eqn:D.
  - injection Hl as <-. left. exact (dict_get_in _ _ D).
  - destruct (str_in (lower file) _); [injection Hl as <-; auto |].
    destruct (String.eqb _ ".md"); [injection Hl as <-; auto | discriminate].
Qed.

Lemma labels_from_file_name_witness :
  spec_label (last (split slash "src/app.ts") EmptyString)
  = Some "typescript" /\
  (In "typescript" (map snd code_extensions) \/
   "typescript" = "readme" \/ "typescript" = "markdown").
Proof.
  apply (@labels_from_file_name with_node_modules "src/app.ts" "typescript");
    reflexivity.
Defined.

Lemma lookup_app entries entries' d :
  lookup (entries ++ entries') d =
  match lookup entries d with
  | Some n => Some n
  | None => lookup entries' d
  end.
Proof.
  induction entries as [|[nm n] entries IH]; cbn [app lookup]; [reflexivity |].
  destruct (String.eqb nm d); [reflexivity | exact IH].
Qed.

(** X17: a subdirectory that cannot be listed is passed over without an error
    and without ending the walk: the result is what it would be if the
    subdirectory were empty. *)
Theorem unlistable_subdirectory_skipped before after d content :
  (forall root s,
     walk walk_body root
       (Dir true (before ++ (d, Dir false content) :: after)) s
     = walk walk_body root
         (Dir true (before ++ (d, Dir true []) :: after)) s) /\
  build_file_tree (Some (Dir true (before ++ (d, Dir false content) :: after)))
  = build_file_tree (Some (Dir true (before ++ (d, Dir true []) :: after))).
Proof.
  assert (W : forall root s,
            walk walk_body root
              (Dir true (before ++ (d, Dir false content) :: after)) s
            = walk walk_body root
                (Dir true (before ++ (d, Dir true []) :: after)) s).
  { intros root s. rewrite !walk_listable, !walk_body_eq.
    assert (D : dirnames (before ++ (d, Dir false content) :: after)
                = dirnames (before ++ (d, Dir true []) :: after)).
    { unfold dirnames. rewrite !filter_app, !map_app. reflexivity. }
    assert (F : filenames (before ++ (d, Dir false content) :: after)
                = filenames (before ++ (d, Dir true []) :: after)).
    { unfold filenames. rewrite !filter_app, !map_app. reflexivity. }
    rewrite D, F. apply fold_left_ext_in.
    intros x _ ft. unfold enter. rewrite !lookup_app.
    destruct (lookup before x); [reflexivity |]. cbn [lookup].
    destruct (String.eqb d x); [| reflexivity].
    rewrite walk_listable. reflexivity. }
  split; [exact W | apply W].
Qed.

(** ** get_readme_summary *)

Lemma length_substring_0 n s :
  n <= String.length s -> String.length (substring 0 n s) = n.
Proof.
  revert s. induction n as [|n IH]; intros s H.
  - now destruct s.
  - destruct s as [|c s]; cbn in *; [lia |]. rewrite IH; lia.
Qed.

Section Summary.

Variable path_exists : string -> bool.
Variable open_read : string -> string + string.
Variables (root_path : string) (max_length : Z).

Lemma readme_loop_shape names :
  readme_loop path_exists open_read root_path max_length names = no_readme \/
  exists name content,
    In name names /\
    path_exists (path_join root_path name) = true /\
    open_read (path_join root_path name) = inr content /\
    readme_loop path_exists open_read root_path max_length names
    = summary_of max_length content.
Proof.
  induction names as [|n names IH]; cbn [readme_loop]; [now left |].
  assert (Next : readme_loop path_exists open_read root_path max_length names
                 = no_readme \/
                 exists name content,
                   In name (n :: names) /\
                   path_exists (path_join root_path name) = true /\
                   open_read (path_join root_path name) = inr content /\
                   readme_loop path_exists open_read root_path max_length names
                   = summary_of max_length content).
  { destruct IH as [E | (name & content & I & P & O & E)]; [now left |].
    right. exists name, content. repeat split; auto. now right. }
  destruct (path_exists (path_join root_path n)) eqn:P; [| exact Next].
  unfold read_file.
  destruct (open_read (path_join root_path n)) as [e | content] eqn:O;
    [exact Next |].
  right. exists n, content. repeat split; auto. now left.
Qed.

Lemma readme_loop_first before : forall name after content,
  (forall n, In n before ->
             path_exists (path_join root_path n) = false \/
             exists e, open_read (path_join root_path n) = inl e) ->
  path_exists (path_join root_path name) = true ->
  open_read (path_join root_path name) = inr content ->
  readme_loop path_exists open_read root_path max_length
    (before ++ name :: after)
  = summary_of max_length content.
Proof.
  induction before as [|n before IH]; intros name after content B P O;
    cbn [app readme_loop].
  - unfold read_file. now rewrite P, O.
  - assert (Rest : readme_loop path_exists open_read root_path max_length
                     (before ++ name :: after) = summary_of max_length content).
    { apply IH; auto. intros x Hx. apply B. now right. }
    destruct (B n (or_introl eq_refl)) as [E | (e & E)].
    + now rewrite E.
    + unfold read_file. rewrite E.
      now destruct (path_exists (path_join root_path n)).
Qed.

End Summary.

(** X18: the result is the no-README message, or the whole text of one of the
    five README files when it has at most [max_length] characters, or the
    first [max_length] characters of that text followed by three dots: then
    it is three characters longer than [max_length]. *)
Theorem readme_summary_shape path_exists open_read root_path max_length :
  (0 <= max_length)%Z ->
  get_readme_summary path_exists open_read root_path max_length = no_readme \/
  exists name content,
    In name readme_files /\
    path_exists (path_join root_path name) = true /\
    open_read (path_join root_path name) = inr content /\
    ((Z.of_nat (String.length content) <= max_length)%Z /\
     get_readme_summary path_exists open_read root_path max_length = content
     \/
     (max_length < Z.of_nat (String.length content))%Z /\
     get_readme_summary path_exists open_read root_path max_length
     = (substring 0 (Z.to_nat max_length) content ++ "...")%string /\
     Z.of_nat (String.length
                 (get_readme_summary path_exists open_read root_path
                    max_length))
     = (max_length + 3)%Z).
Proof.
  intros Hmax. unfold get_readme_summary.
  destruct (readme_loop_shape path_exists open_read root_path max_length
              readme_files) as [E | (name & content & I & P & O & E)];
    [now left |].
  right. exists name, content. repeat split; auto.
  rewrite E. unfold summary_of.
  destruct (Z.ltb_spec max_length (Z.of_nat (String.length content)))
    as [Lt | Ge]; [right | left; split; [lia | reflexivity]].
  assert (S : slice_to max_length content
              = substring 0 (Z.to_nat max_length) content).
  { unfold slice_to. cbv zeta.
    destruct (Z.ltb_spec max_length 0); [lia |].
    now rewrite Z.min_l by lia. }
  rewrite S. repeat split; [lia |].
  rewrite length_append, length_substring_0 by lia. cbn. lia.
Qed.

Lemma readme_summary_shape_witness :
  let found := fun p => String.eqb p "repo/readme.md" in
  let text := fun _ : string => @inr string string "hello world" in
  get_readme_summary found text "repo" 5 = no_readme \/
  exists name content,
    In name readme_files /\
    found (path_join "repo" name) = true /\
    text (path_join "repo" name) = inr content /\
    ((Z.of_nat (String.length content) <= 5)%Z /\
     get_readme_summary found text "repo" 5 = content
     \/
     (5 < Z.of_nat (String.length content))%Z /\
     get_readme_summary found text "repo" 5
     = (substring 0 (Z.to_nat 5) content ++ "...")%string /\
     Z.of_nat (String.length (get_readme_summary found text "repo" 5))
     = (5 + 3)%Z).
Proof.
  intros found text. apply (@readme_summary_shape found text "repo" 5%Z).
  lia.
Defined.

(** X19: the five names are tried in their order: the first that exists and
    can be read gives the result, and one that exists but cannot be read
    is passed over. *)
Theorem readme_summary_first path_exists open_read root_path max_length
    before name after content :
  readme_files = before ++ name :: after ->
  (forall n, In n before ->
             path_exists (path_join root_path n) = false \/
             exists e, open_read (path_join root_path n) = inl e) ->
  path_exists (path_join root_path name) = true ->
  open_read (path_join root_path name) = inr content ->
  get_readme_summary path_exists open_read root_path max_length
  = summary_of max_length content.
Proof.
  intros E B P O. unfold get_readme_summary. rewrite E.
  now apply readme_loop_first.
Qed.

Lemma readme_summary_first_witness :
  get_readme_summary
    (fun p => String.eqb p "repo/README.md" || String.eqb p "repo/README")
    (fun p => if String.eqb p "repo/README" then inr "short"
              else inl "[Errno 13] Permission denied")
    "repo" 500
  = summary_of 500 "short".
Proof.
  apply (@readme_summary_first _ _ "repo" 500%Z
           ["README.md"; "readme.md"; "README.txt"] "README" ["readme"]
           "short").
  - reflexivity.
  - intros n [<- | [<- | [<- | []]]].
    + right. now eexists.
    + left. reflexivity.
    + left. reflexivity.
  - reflexivity.
  - reflexivity.
Defined.

(** ** count_lines *)










(** ** README files in any capitalisation *)

Lemma lower_char_dot c : Ascii.eqb (lower_char c) dot = Ascii.eqb c dot.
Proof. destruct c as [[] [] [] [] [] [] [] []]; reflexivity. Qed.

Lemma lower_char_slash c : Ascii.eqb (lower_char c) slash = Ascii.eqb c slash.
Proof. destruct c as [[] [] [] [] [] [] [] []]; reflexivity. Qed.

Section Lower.

Lemma lower_length s : String.length (lower s) = String.length s.
Proof. induction s; cbn [lower String.length]; congruence. Qed.

Lemma lower_substring s : forall n m,
  lower (substring n m s) = substring n m (lower s).
Proof.
  induction s as [|c s IH]; intros n m.
  - destruct n, m; reflexivity.
  - destruct n as [|n]; [destruct m as [|m] |]; cbn [substring lower];
      [reflexivity | now rewrite IH | apply IH].
Qed.

Lemma lower_rfind_dot s : rfind dot (lower s) = rfind dot s.
Proof.
  induction s as [|c s IH]; cbn [lower rfind]; [reflexivity |].
  now rewrite IH, lower_char_dot.
Qed.

Lemma lower_rfind_slash s : rfind slash (lower s) = rfind slash s.
Proof.
  induction s as [|c s IH]; cbn [lower rfind]; [reflexivity |].
  now rewrite IH, lower_char_slash.
Qed.

Lemma lower_all_dots s : all_dots (lower s) = all_dots s.
Proof.
  induction s as [|c s IH]; cbn [lower all_dots]; [reflexivity |].
  now rewrite IH, lower_char_dot.
Qed.

(** Lower-casing a name lower-cases its extension. *)
Lemma lower_splitext s :
  snd (splitext (lower s)) = lower (snd (splitext s)).
Proof.
  unfold splitext. cbv zeta.
  rewrite lower_rfind_dot, lower_rfind_slash, lower_length.
  destruct (rfind dot s) as [dotIndex|]; [| reflexivity].
  rewrite <- lower_substring, lower_all_dots.
  destruct (_ && _); [| reflexivity].
  cbn [snd]. now rewrite lower_substring.
Qed.

End Lower.

(** The extensions of the table are in lower case. *)
Lemma code_extension_lower ext language :
  dict_get code_extensions ext = Some language -> lower ext = ext.
Proof.
  unfold code_extensions. cbn [dict_get].
  repeat match goal with
         | |- (if String.eqb ?k ext then _ else _) = _ -> _ =>
             destruct (String.eqb_spec k ext) as [<- |];
             [intros _; reflexivity |]
         end.
  discriminate.
Qed.

(** A README spelling has no extension of the table, so the first rule
    leaves it to the second. *)
Lemma readme_label file :
  str_in (lower file) ["readme.md"; "readme.txt"; "readme"] = true ->
  spec_label file = Some "readme" /\ startswith file "." = false.
Proof.
  intros R. split.
  - unfold spec_label. cbv zeta. rewrite R.
    destruct (dict_get code_extensions (snd (splitext file)))
      as [language|] eqn:D; [| reflexivity].
    apply code_extension_lower in D as L.
    rewrite <- L, <- lower_splitext in D.
    unfold str_in in R. cbn [existsb] in R.
    repeat match type of R with
           | (String.eqb _ ?k || _) = true =>
               destruct (String.eqb_spec (lower file) k) as [E |];
               [rewrite E in D; discriminate D | cbn [orb] in R]
           end.
    discriminate R.
  - destruct file as [|c file]; [reflexivity |].
    unfold startswith. cbn [String.prefix].
    destruct (ascii_dec "." c) as [<- |].
    + unfold str_in in R. cbn in R. discriminate R.
    + reflexivity.
Qed.

(** The value stored for a file the walk offered and that is not hidden
    is its label. *)
Lemma seen_file_label t below file :
  names_ok t = true -> seen t below file ->
  startswith file "." = false ->
  dict_get (build_file_tree (Some t)) (relpath below file) = spec_label file.
Proof.
  intros Hok Hseen Hvis.
  pose proof (seen_slash_free Hseen Hok) as F.
  destruct (spec_label file) as [l|] eqn:Hl.
  - unfold build_file_tree, walk_top.
    apply (@walk_reaches
             (fun ft => dict_get ft (relpath below file) = Some l)
             t below file Hseen []).
    + intros ft. rewrite visit_file_label, Hvis, Hl, dict_get_set.
      simpl app. now rewrite String.eqb_refl.
    + intros below' file' ft Hseen' Hft.
      rewrite visit_file_label. simpl app.
      destruct (startswith file' "."); [exact Hft |].
      destruct (spec_label file') as [l'|] eqn:Hl'; [| exact Hft].
      rewrite dict_get_set.
      destruct (String.eqb_spec (relpath below' file') (relpath below file))
        as [E |]; [| exact Hft].
      apply relpath_inj in E;
        [| now apply seen_slash_free with t | exact F].
      destruct E as [_ ->]. congruence.
  - destruct (dict_get (build_file_tree (Some t)) (relpath below file))
      as [l|] eqn:G; [| reflexivity].
    apply build_file_tree_keys in G.
    destruct G as (below' & file' & Hseen' & _ & E & Hl').
    apply relpath_inj in E;
      [| exact F | now apply seen_slash_free with t].
    destruct E as [_ ->]. congruence.
Qed.

(** X16: a file whose name is [readme.md], [readme.txt] or [readme] in any
    capitalisation is in the result with the label [readme], wherever the
    walk finds it. *)
Theorem readme_any_case t below file :
  names_ok t = true -> seen t below file ->
  str_in (lower file) ["readme.md"; "readme.txt"; "readme"] = true ->
  dict_get (build_file_tree (Some t)) (relpath below file) = Some "readme".
Proof.
  intros Hok Hseen R. destruct (readme_label file R) as [L V].
  rewrite <- L. now apply seen_file_label.
Qed.

Lemma readme_any_case_witness :
  dict_get
    (build_file_tree (Some (Dir true [("docs", Dir true [("ReadMe.MD", File)])])))
    "docs/ReadMe.MD" = Some "readme".
Proof.
  apply (@readme_any_case
           (Dir true [("docs", Dir true [("ReadMe.MD", File)])])
           ["docs"] "ReadMe.MD").
  - reflexivity.
  - apply seen_below with (Dir true [("ReadMe.MD", File)]).
    + cbn. left. reflexivity.
    + reflexivity.
    + apply seen_here. cbn. left. reflexivity.
  - reflexivity.
Defined.

(** ** A declaration on the last line *)

(** X12: a declaration on the last line of the text has the empty docstring:
    no line is read after the last. *)
Theorem last_line_docstring content r :
  In r (functions (simple_parse_python content)) \/
  In r (classes (simple_parse_python content)) ->
  line r = List.length (split newline content) ->
  docstring r = EmptyString.
Proof.
  intros Hr Hl. apply decl_docstring in Hr. destruct Hr as [H1 ->].
  unfold try_docstring.
  replace (line r - 1 + 1) with (List.length (split newline content)) by lia.
  now rewrite (proj2 (nth_error_None _ _) (Nat.le_refl _)).
Qed.

Lemma last_line_docstring_witness :
  docstring (Decl "run" 1 EmptyString "function") = EmptyString.
Proof.
  apply (@last_line_docstring "def run():").
  - left. vm_compute. left. reflexivity.
  - reflexivity.
Defined.

(** ** The entries of the result *)

(** X22: the entries of the result are exactly these: one for each file
    the walk offers that is not hidden and has a label, under its path
    relative to the root, with that label. *)
Theorem build_file_tree_entries t path label :
  names_ok t = true ->
  (dict_get (build_file_tree (Some t)) path = Some label <->
   exists below file,
     seen t below file /\ startswith file "." = false /\
     path = relpath below file /\ spec_label file = Some label).
Proof.
  intros Hok. split.
  - apply build_file_tree_keys.
  - intros (below & file & Hseen & Hvis & -> & Hl).
    rewrite <- Hl. now apply seen_file_label.
Qed.

Lemma build_file_tree_entries_witness :
  dict_get (build_file_tree (Some with_node_modules)) "src/app.ts"
  = Some "typescript".
Proof.
  apply (@build_file_tree_entries with_node_modules
           "src/app.ts" "typescript" eq_refl).
  exists ["src"], "app.ts". repeat split.
  apply seen_below
    with (Dir true [("build", Dir true [("out.c", File)]); ("app.ts", File)]).
  - cbn. left. reflexivity.
  - reflexivity.
  - apply seen_here. cbn. left. reflexivity.
Defined.
